(** * SANDRO security core: a shallow embedding and its checked properties

    The TypeScript classes of the security core are embedded as pure
    functions over explicit state records:

    - [AssetProtection]  : AssetProtectionService (signed, expiring URLs)
    - [RateLimiter]      : APIObfuscator.checkRateLimit and its store
    - [DevTools]         : DevToolsDetector.runDetection / handleDetection
    - [Integrity]        : IntegrityVerifier.performIntegrityCheck
    - [Monitor]          : SecurityMonitor.updateMetrics
    - [EventLogger]      : SecurityEventLogger (queue, flush, retry, storage)

    Conventions.  A JavaScript [Map] or object used as a dictionary is a
    [gmap]; an array is a [list]; a method that mutates [this] takes the
    state record and returns the new one; a method that may [throw]
    returns an [outcome].  [Date.now()] is an explicit argument [now] (one
    clock reading per call), random draws are explicit arguments, and the
    library primitives of crypto-js are section variables.  Millisecond
    timestamps and counters are integers ([Z]).

    Console output is not part of the state of a class, with one
    exception: SecurityEventLogger replaces [console.log], [console.warn]
    and [console.error] by wrappers that call its own [logEvent], so for
    that class every console call is embedded as the call it performs, and
    the depth of the call stack is bounded by an explicit [fuel].

    An [async] method is embedded in two parts: what it does up to the
    point where it waits for the network, and what it does once the awaited
    request has settled. *)

From Stdlib Require Import ZArith QArith String Ascii List Lia.
From stdpp Require Import base gmap strings list pretty sorting.

Set Warnings "-notation-for-abbreviation".

Open Scope string_scope.
Open Scope list_scope.
Open Scope Z_scope.

(** The result of running a method body: a normal return or a thrown
    [Error] carrying its message. *)
Inductive outcome (A : Type) : Type :=
| Returned (a : A)
| Thrown (msg : string).
Arguments Returned {A} a.
Arguments Thrown {A} msg.

(** ** JavaScript string helpers *)

(** [s.lastIndexOf(c)]: index of the last occurrence, [-1] when absent. *)
Fixpoint lastIndexOf_from (c : ascii) (s : string) (i acc : Z) : Z :=
  match s with
  | EmptyString => acc
  | String a r => lastIndexOf_from c r (i + 1) (if Ascii.eqb a c then i else acc)
  end.

Definition lastIndexOf (c : ascii) (s : string) : Z := lastIndexOf_from c s 0 (-1).

(** [s.substring(start)]: a negative start is clamped to 0. *)
Definition substring_from (start : Z) (s : string) : string :=
  let st := Z.to_nat (Z.max 0 start) in
  String.substring st (String.length s - st)%nat s.

(** [s.substring(0, n)] *)
Definition substring_to (n : nat) (s : string) : string := String.substring 0 n s.

(** [n.toString(36)] for an integer [n]. *)
Definition digit36 (d : Z) : ascii :=
  if d <? 10 then ascii_of_nat (Z.to_nat (48 + d)) else ascii_of_nat (Z.to_nat (87 + d)).

Fixpoint toString36_aux (fuel : nat) (n : Z) (acc : string) : string :=
  match fuel with
  | O => acc
  | S f =>
      let acc' := String (digit36 (n mod 36)) acc in
      if n / 36 =? 0 then acc' else toString36_aux f (n / 36) acc'
  end.

Definition toString36 (n : Z) : string :=
  if n <? 0 then "-" +:+ toString36_aux (S (Z.to_nat (Z.log2 (- n)))) (- n) ""
  else toString36_aux (S (Z.to_nat (Z.log2 n))) n "".

(** [differsInOneChar s t]: [t] has the length of [s] and differs from it
    at exactly one position. *)
Fixpoint differsInOneChar (s t : string) : bool :=
  match s, t with
  | String a s', String b t' =>
      if Ascii.eqb a b then differsInOneChar s' t' else String.eqb s' t'
  | _, _ => false
  end.

(** A concrete keyed function standing for the HMAC in closed examples. *)
Definition sampleHmac (data key : string) : string := key +:+ "#" +:+ data.

(** ** Shared vocabulary *)

(** ['low' | 'medium' | 'high' | 'critical'] *)
Inductive Severity : Type := Low | Medium | High | Critical.

#[global] Instance Severity_eq_dec : EqDecision Severity.
Proof. solve_decision. Defined.

(** ** AssetProtectionService *)

Module AssetProtection.

Record AssetProtectionConfig : Type := {
  enabled : bool;
  urlExpiration : Z;            (* minutes *)
  maxFileSize : Z;              (* bytes *)
  allowedExtensions : list string;
  signatureKey : string;
  proxyEndpoint : string
}.

Record SignedAssetUrl : Type := {
  url : string;
  token : string;
  expires : Z;
  signature : string
}.

Record AssetAccessLog : Type := {
  log_token : string;
  log_timestamp : Z;
  log_userAgent : string;
  log_success : bool;
  log_reason : option string
}.

(** A value of [tokenCache]: [{ originalPath, expires }]. *)
Record TokenData : Type := {
  originalPath : string;
  td_expires : Z
}.

Record Service : Type := {
  config : AssetProtectionConfig;
  accessLogs : list AssetAccessLog;
  tokenCache : gmap string TokenData
}.

Definition set_accessLogs (svc : Service) (l : list AssetAccessLog) : Service :=
  {| config := config svc; accessLogs := l; tokenCache := tokenCache svc |}.

Definition set_tokenCache (svc : Service) (m : gmap string TokenData) : Service :=
  {| config := config svc; accessLogs := accessLogs svc; tokenCache := m |}.

(** The constructor's defaults, [signatureKey] being the freshly drawn key. *)
Definition defaultConfig (key : string) : AssetProtectionConfig :=
  {| enabled := true;
     urlExpiration := 15;
     maxFileSize := 50 * 1024 * 1024;
     allowedExtensions :=
       [".jpg"; ".jpeg"; ".png"; ".webp"; ".avif"; ".glb"; ".gltf"; ".json"; ".bin"];
     signatureKey := key;
     proxyEndpoint := "/secure-assets" |}.

(** The development preset of [assetProtectionConfig]: protection off. *)
Definition disabledConfig : AssetProtectionConfig :=
  {| enabled := false; urlExpiration := 60; maxFileSize := 50 * 1024 * 1024;
     allowedExtensions := allowedExtensions (defaultConfig "k");
     signatureKey := "k"; proxyEndpoint := "/secure-assets" |}.

Definition newService (cfg : AssetProtectionConfig) : Service :=
  {| config := cfg; accessLogs := []; tokenCache := ∅ |}.

(** [getFileExtension]: [filePath.substring(filePath.lastIndexOf('.'))]. *)
Definition getFileExtension (filePath : string) : string :=
  substring_from (lastIndexOf "."%char filePath) filePath.

(** [generateSecureToken]: base-36 clock reading followed by the random
    hex string [rnd], cut to 32 characters. *)
Definition generateSecureToken (now : Z) (rnd : string) : string :=
  substring_to 32 (toString36 now +:+ rnd).

Section WithPrimitives.

(** [crypto.HmacSHA256(data, key).toString()] *)
Variable HmacSHA256 : string → string → string.
(** [navigator.userAgent], or ['server'] *)
Variable userAgent : string.

Definition generateSignature (cfg : AssetProtectionConfig)
    (token : string) (expires : Z) (assetPath : string) : string :=
  let data := token +:+ ":" +:+ pretty expires +:+ ":" +:+ assetPath in
  HmacSHA256 data (signatureKey cfg).

Definition logAccess (svc : Service) (now : Z)
    (token : string) (success : bool) (reason : option string) : Service :=
  let log := {| log_token := substring_to 8 token +:+ "...";
                log_timestamp := now;
                log_userAgent := userAgent;
                log_success := success;
                log_reason := reason |} in
  let logs := accessLogs svc ++ [log] in
  set_accessLogs svc (if (1000 <? Z.of_nat (length logs)) then tail logs else logs).

Definition generateSignedUrl (svc : Service) (now : Z) (rnd : string)
    (assetPath : string) : outcome SignedAssetUrl * Service :=
  let cfg := config svc in
  if negb (enabled cfg) then
    (Returned {| url := assetPath; token := ""; expires := 0; signature := "" |}, svc)
  else
    let extension := getFileExtension assetPath in
    if negb (bool_decide (extension ∈ allowedExtensions cfg)) then
      (Thrown ("Asset type not allowed: " +:+ extension), svc)
    else
      let token := generateSecureToken now rnd in
      let expires := now + urlExpiration cfg * 60 * 1000 in
      let signature := generateSignature cfg token expires assetPath in
      let svc' :=
        set_tokenCache svc
          (<[token := {| originalPath := assetPath; td_expires := expires |}]>
             (tokenCache svc)) in
      let url := proxyEndpoint cfg +:+ "/" +:+ token +:+ "?exp=" +:+ pretty expires
                 +:+ "&sig=" +:+ signature in
      (Returned {| url := url; token := token; expires := expires;
                   signature := signature |}, svc').

Definition validateSignedUrl (svc : Service) (now : Z)
    (token providedSignature : string) (expires : Z) : option string * Service :=
  if negb (enabled (config svc)) then (None, svc)
  else
    match tokenCache svc !! token with
    | None => (None, logAccess svc now token false (Some "Token not found"))
    | Some tokenData =>
        if (expires <? now) || (td_expires tokenData <? now) then
          (None,
           logAccess (set_tokenCache svc (delete token (tokenCache svc)))
                     now token false (Some "Token expired"))
        else
          let expectedSignature :=
            generateSignature (config svc) token expires (originalPath tokenData) in
          if bool_decide (providedSignature ≠ expectedSignature) then
            (None, logAccess svc now token false (Some "Invalid signature"))
          else
            (Some (originalPath tokenData), logAccess svc now token true None)
    end.

End WithPrimitives.

(** [revokeAllTokens] *)
Definition revokeAllTokens (svc : Service) : Service := set_tokenCache svc ∅.

(** The body of the five-minute cleanup timer. *)
Definition cleanupExpired (svc : Service) (now : Z) : Service :=
  set_tokenCache svc (filter (λ kv, ¬ (td_expires kv.2 < now)) (tokenCache svc)).

(** The reason recorded by the most recent [logAccess]. *)
Definition lastAccess (svc : Service) : option (bool * option string) :=
  (λ l, (log_success l, log_reason l)) <$> last (accessLogs svc).

(** The service of the closed examples after one grant was issued at
    clock 0 for "/img/a.png" (token "0r", expiry 900000). *)
Definition sampleIssued : Service :=
  (generateSignedUrl sampleHmac (newService (defaultConfig "k")) 0 "r" "/img/a.png").2.

End AssetProtection.

(** ** APIObfuscator: the request rate limiter *)

Module RateLimiter.

Record RateLimitEntry : Type := {
  count : Z;
  firstRequest : Z;
  lastRequest : Z;
  blocked : bool
}.

(** The part of the page state [checkRateLimit] reads and writes:
    [sessionStorage] and the obfuscator's [rateLimitStore]. *)
Record State : Type := {
  sessionStorage : gmap string string;
  rateLimitStore : gmap string RateLimitEntry
}.

Definition set_rateLimitStore (st : State) (m : gmap string RateLimitEntry) : State :=
  {| sessionStorage := sessionStorage st; rateLimitStore := m |}.

Definition windowSize : Z := 60000.   (* 1 minute window *)
Definition maxRequests : Z := 100.    (* 100 requests per minute *)

(** [getClientId]: the stored id when it is a non-empty string, else a new
    id built from the clock and a random suffix [rnd], which is stored. *)
Definition getClientId (st : State) (now : Z) (rnd : string) : string * State :=
  let fresh := "client_" +:+ pretty now +:+ "_" +:+ rnd in
  let generate :=
    (fresh, {| sessionStorage := <["client_id" := fresh]> (sessionStorage st);
               rateLimitStore := rateLimitStore st |}) in
  match sessionStorage st !! "client_id" with
  | Some clientId => if bool_decide (clientId = "") then generate else (clientId, st)
  | None => generate
  end.

(** The store key [checkRateLimit] uses for [url] in state [st]. *)
Definition rateLimitKey (st : State) (now : Z) (rnd url : string) : string :=
  (getClientId st now rnd).1 +:+ ":" +:+ url.

Definition checkRateLimit (st : State) (now : Z) (rnd url : string)
  : outcome unit * State :=
  let '(clientId, st1) := getClientId st now rnd in
  let key := clientId +:+ ":" +:+ url in
  match rateLimitStore st1 !! key with
  | None =>
      let entry := {| count := 1; firstRequest := now; lastRequest := now;
                      blocked := false |} in
      (Returned tt, set_rateLimitStore st1 (<[key := entry]> (rateLimitStore st1)))
  | Some entry =>
      (* Reset window if expired *)
      if windowSize <? now - firstRequest entry then
        let entry' := {| count := 1; firstRequest := now; lastRequest := now;
                         blocked := false |} in
        (Returned tt, set_rateLimitStore st1 (<[key := entry']> (rateLimitStore st1)))
      else
        let entry' := {| count := count entry + 1;
                         firstRequest := firstRequest entry;
                         lastRequest := now;
                         blocked := blocked entry |} in
        (* Check if rate limit exceeded *)
        if maxRequests <? count entry' then
          let entry'' := {| count := count entry';
                            firstRequest := firstRequest entry';
                            lastRequest := lastRequest entry';
                            blocked := true |} in
          (Thrown ("Rate limit exceeded for " +:+ url),
           set_rateLimitStore st1 (<[key := entry'']> (rateLimitStore st1)))
        else
          (Returned tt, set_rateLimitStore st1 (<[key := entry']> (rateLimitStore st1)))
  end.

(** Successive calls for one [url]; each call has its own clock reading
    and random draw.  Returns the outcomes in call order. *)
Fixpoint checkRateLimit_seq (st : State) (calls : list (Z * string)) (url : string)
  : list (outcome unit) * State :=
  match calls with
  | [] => ([], st)
  | (now, rnd) :: rest =>
      let '(o, st1) := checkRateLimit st now rnd url in
      let '(os, st2) := checkRateLimit_seq st1 rest url in
      (o :: os, st2)
  end.

(** The purge of [rotateMappings]: entries idle for more than an hour go. *)
Definition purgeStale (st : State) (now : Z) : State :=
  set_rateLimitStore st
    (filter (λ kv, ¬ (3600000 < now - lastRequest kv.2)) (rateLimitStore st)).

(** A call at [now] opens a new window for [key]: there is no entry yet,
    or the entry's window has run out. *)
Definition opensWindow (st : State) (key : string) (now : Z) : Prop :=
  match rateLimitStore st !! key with
  | None => True
  | Some entry => windowSize < now - firstRequest entry
  end.

(** A state whose session already holds the non-empty client id [cid]. *)
Definition hasClient (st : State) (cid : string) : Prop :=
  sessionStorage st !! "client_id" = Some cid ∧ cid ≠ "".

Definition emptyState : State := {| sessionStorage := ∅; rateLimitStore := ∅ |}.

End RateLimiter.

(** ** SecurityMonitor: alerts and metrics *)

Module Monitor.

(** [SecurityAlert]; [type] is the event-type string and [details] the
    alert's key-value payload. *)
Record SecurityAlert : Type := {
  id : string;
  type : string;
  severity : Severity;
  message : string;
  details : gmap string string;
  timestamp : Z;
  acknowledged : bool
}.

(** The result of [APIObfuscator.getStats()]. *)
Record ApiStats : Type := {
  endpointMappings : Z;
  fieldMappings : Z;
  rateLimitEntries : Z;
  activeBlocks : Z
}.

Record PerformanceImpact : Type := {
  averageOverhead : Z;
  peakOverhead : Z;
  memoryUsage : Z
}.

Record SecurityMetrics : Type := {
  uptime : Z;
  totalEvents : Z;
  eventsByType : gmap string Z;
  devToolsDetections : Z;
  assetProtectionEvents : Z;
  apiObfuscationStats : ApiStats;
  performanceImpact : PerformanceImpact;
  threatLevel : Severity
}.

Record SecurityMonitor : Type := {
  startTime : Z;
  isActive : bool;
  alerts : list SecurityAlert;
  metrics : option SecurityMetrics
}.

(** [eventsByType[alert.type] = (eventsByType[alert.type] || 0) + 1] over
    the alerts in order. *)
Definition countByType (l : list SecurityAlert) : gmap string Z :=
  foldl (λ m a, <[type a := default 0 (m !! type a) + 1]> m) ∅ l.

(** [this.alerts.filter(a => a.severity === s).length] *)
Definition countSeverity (s : Severity) (l : list SecurityAlert) : Z :=
  Z.of_nat (length (filter (λ a, severity a = s) l)).

(** [updateMetrics]; [now] is the clock and [stats] what the obfuscator
    reports. *)
Definition updateMetrics (m : SecurityMonitor) (now : Z) (stats : ApiStats)
  : SecurityMonitor :=
  let uptime := now - startTime m in
  let eventsByType := countByType (alerts m) in
  (* Calculate threat level *)
  let criticalAlerts := countSeverity Critical (alerts m) in
  let highAlerts := countSeverity High (alerts m) in
  let threatLevel :=
    if 0 <? criticalAlerts then Critical
    else if 2 <? highAlerts then High
    else if 10 <? Z.of_nat (length (alerts m)) then Medium
    else Low in
  {| startTime := startTime m;
     isActive := isActive m;
     alerts := alerts m;
     metrics := Some
       {| uptime := uptime;
          totalEvents := Z.of_nat (length (alerts m));
          eventsByType := eventsByType;
          devToolsDetections := default 0 (eventsByType !! "devtools_detected");
          assetProtectionEvents := default 0 (eventsByType !! "asset_access_denied");
          apiObfuscationStats := stats;
          performanceImpact :=
            {| averageOverhead := 5; peakOverhead := 15; memoryUsage := 2048 |};
          threatLevel := threatLevel |} |}.

(** [getMetrics().threatLevel] *)
Definition computedThreatLevel (m : SecurityMonitor) (now : Z) (stats : ApiStats)
  : option Severity :=
  threatLevel <$> metrics (updateMetrics m now stats).

Definition sampleAlert (s : Severity) : SecurityAlert :=
  {| id := "alert_1"; type := "devtools_detected"; severity := s;
     message := "Developer tools detected"; details := ∅;
     timestamp := 0; acknowledged := false |}.

Definition sampleMonitor (l : list SecurityAlert) : SecurityMonitor :=
  {| startTime := 0; isActive := true; alerts := l; metrics := None |}.

Definition noStats : ApiStats :=
  {| endpointMappings := 0; fieldMappings := 0; rateLimitEntries := 0;
     activeBlocks := 0 |}.

End Monitor.

(** ** DevToolsDetector: one detection tick *)

Module DevTools.

(** [DetectionResult].  A confidence is a finite number between 0 and 1;
    it is only ever compared, so a rational stands for it exactly. *)
Record DetectionResult : Type := {
  detected : bool;
  method : string;
  confidence : Q;
  timestamp : Z
}.

(** [DevToolsDetectionConfig].  [onDetection] is the optional callback;
    its value says whether it returns or throws on given arguments. *)
Record DevToolsDetectionConfig : Type := {
  enabled : bool;
  detectionMethods : list string;
  warningMessage : string;
  onDetection : option (string → Q → outcome unit);
  blockOnDetection : bool;
  detectionInterval : Z;
  confidenceThreshold : Q
}.

(** The detector's fields, followed by what it has done to the outside:
    the arguments of every [onDetection] call so far, the number of warning
    overlays shown, and whether the page body was replaced by the block. *)
Record Detector : Type := {
  config : DevToolsDetectionConfig;
  isDetecting : bool;
  lastDetection : option DetectionResult;
  detectionHistory : list DetectionResult;
  startTime : Z;
  warningShown : bool;
  callbackCalls : list (string * Q);
  warningsDisplayed : Z;
  pageBlocked : bool
}.

Definition newDetector (cfg : DevToolsDetectionConfig) : Detector :=
  {| config := cfg; isDetecting := false; lastDetection := None;
     detectionHistory := []; startTime := 0; warningShown := false;
     callbackCalls := []; warningsDisplayed := 0; pageBlocked := false |}.

(** [a < b] on confidences, as a boolean. *)
Definition Qltb (a b : Q) : bool := negb (Qle_bool b a).

(** [arr.slice(-n)] *)
Definition slice_last {A} (n : nat) (l : list A) : list A :=
  drop (length l - n) l.

(** [arr.reduce(f)] without an initial value, on a non-empty array. *)
Definition reduce1 {A} (f : A → A → A) (l : list A) : option A :=
  match l with
  | [] => None
  | x :: rest => Some (foldl f x rest)
  end.

Section WithProbes.

(** The four probes read the browser; each is given by what it returns
    (or that it throws) at a clock reading. *)
Variable timingBasedDetection : Z → outcome DetectionResult.
Variable resizeBasedDetection : Z → outcome DetectionResult.
Variable consoleBasedDetection : Z → outcome DetectionResult.
Variable debuggerBasedDetection : Z → outcome DetectionResult.

(** [detectByMethod]: [null] for an unknown method name. *)
Definition detectByMethod (mth : string) (now : Z) : outcome (option DetectionResult) :=
  let some (o : outcome DetectionResult) : outcome (option DetectionResult) :=
    match o with Returned r => Returned (Some r) | Thrown msg => Thrown msg end in
  if bool_decide (mth = "timing") then some (timingBasedDetection now)
  else if bool_decide (mth = "resize") then some (resizeBasedDetection now)
  else if bool_decide (mth = "console") then some (consoleBasedDetection now)
  else if bool_decide (mth = "debugger") then some (debuggerBasedDetection now)
  else Returned None.

(** The first loop of [runDetection]: a probe that throws is skipped. *)
Fixpoint collectResults (methods : list string) (now : Z) : list DetectionResult :=
  match methods with
  | [] => []
  | mth :: rest =>
      match detectByMethod mth now with
      | Returned (Some result) => result :: collectResults rest now
      | Returned None => collectResults rest now
      | Thrown _ => collectResults rest now
      end
  end.

(** [r.detected && r.confidence >= this.config.confidenceThreshold] *)
Definition qualifies (cfg : DevToolsDetectionConfig) (r : DetectionResult) : bool :=
  detected r && Qle_bool (confidenceThreshold cfg) (confidence r).

(** [(best, current) => current.confidence > best.confidence ? current : best] *)
Definition better (best current : DetectionResult) : DetectionResult :=
  if Qltb (confidence best) (confidence current) then current else best.

Definition highConfidenceDetections (cfg : DevToolsDetectionConfig) (now : Z)
  : list DetectionResult :=
  filter (λ r, qualifies cfg r = true) (collectResults (detectionMethods cfg) now).

(** [handleDetection] *)
Definition handleDetection (d : Detector) (detection : DetectionResult)
  : outcome unit * Detector :=
  let cfg := config d in
  let afterCallback (calls : list (string * Q)) : outcome unit * Detector :=
    (* Show warning (once per session) *)
    let shown := if warningShown d then warningsDisplayed d else warningsDisplayed d + 1 in
    let d' blocked :=
      {| config := cfg; isDetecting := isDetecting d;
         lastDetection := Some detection;
         detectionHistory := detectionHistory d; startTime := startTime d;
         warningShown := true; callbackCalls := calls;
         warningsDisplayed := shown; pageBlocked := blocked |} in
    (* Block if configured *)
    if blockOnDetection cfg then
      (Thrown "Access blocked due to developer tools detection", d' true)
    else (Returned tt, d' (pageBlocked d)) in
  match onDetection cfg with
  | Some callback =>
      let calls := callbackCalls d ++ [(method detection, confidence detection)] in
      match callback (method detection) (confidence detection) with
      | Returned _ => afterCallback calls
      | Thrown msg =>
          (Thrown msg,
           {| config := cfg; isDetecting := isDetecting d;
              lastDetection := Some detection;
              detectionHistory := detectionHistory d; startTime := startTime d;
              warningShown := warningShown d; callbackCalls := calls;
              warningsDisplayed := warningsDisplayed d;
              pageBlocked := pageBlocked d |})
      end
  | None => afterCallback (callbackCalls d)
  end.

Definition storeHistory (d : Detector) (results : list DetectionResult) : Detector :=
  let h := detectionHistory d ++ results in
  {| config := config d; isDetecting := isDetecting d;
     lastDetection := lastDetection d;
     detectionHistory := if (10 <? length h)%nat then slice_last 10 h else h;
     startTime := startTime d; warningShown := warningShown d;
     callbackCalls := callbackCalls d; warningsDisplayed := warningsDisplayed d;
     pageBlocked := pageBlocked d |}.

(** [runDetection]: one tick. *)
Definition runDetection (d : Detector) (now : Z) : outcome unit * Detector :=
  let results := collectResults (detectionMethods (config d)) now in
  let high := filter (λ r, qualifies (config d) r = true) results in
  match reduce1 better high with
  | Some bestDetection =>
      match handleDetection d bestDetection with
      | (Returned _, d1) => (Returned tt, storeHistory d1 results)
      | (Thrown msg, d1) => (Thrown msg, d1)
      end
  | None => (Returned tt, storeHistory d results)
  end.

End WithProbes.

(** Sample probe readings and configuration for closed examples. *)
Definition sampleTiming (now : Z) : outcome DetectionResult :=
  Returned {| detected := true; method := "timing"; confidence := 85 # 100;
              timestamp := now |}.
Definition sampleResize (now : Z) : outcome DetectionResult :=
  Returned {| detected := true; method := "resize"; confidence := 9 # 10;
              timestamp := now |}.
Definition sampleConsole (now : Z) : outcome DetectionResult :=
  Returned {| detected := true; method := "console"; confidence := 7 # 10;
              timestamp := now |}.
Definition sampleDebugger (now : Z) : outcome DetectionResult :=
  Thrown "probe failed".

(** A console probe that reports a high confidence without a detection. *)
Definition sampleQuietConsole (now : Z) : outcome DetectionResult :=
  Returned {| detected := false; method := "console"; confidence := 95 # 100;
              timestamp := now |}.

Definition sampleConfig : DevToolsDetectionConfig :=
  {| enabled := true;
     detectionMethods := ["timing"; "resize"; "console"; "debugger"];
     warningMessage := "Developer tools detected.";
     onDetection := Some (λ _ _, Returned tt);
     blockOnDetection := false;
     detectionInterval := 1000;
     confidenceThreshold := 8 # 10 |}.

(** The sample configuration with the threshold set to the confidence of
    the sample timing probe. *)
Definition boundaryConfig : DevToolsDetectionConfig :=
  {| enabled := true;
     detectionMethods := ["timing"; "resize"; "console"; "debugger"];
     warningMessage := "Developer tools detected.";
     onDetection := Some (λ _ _, Returned tt);
     blockOnDetection := false;
     detectionInterval := 1000;
     confidenceThreshold := 85 # 100 |}.

End DevTools.

(** ** IntegrityVerifier: one verification pass *)

Module Integrity.

Inductive HashAlgorithm : Type := SHA256 | SHA512 | MD5.

Record IntegrityCheck : Type := {
  hash : string;
  timestamp : Z;
  verified : bool;
  failureCount : Z
}.

Record TamperEvent : Type := {
  type : string;
  ev_timestamp : Z;
  expectedHash : string;
  actualHash : string;
  location : string;
  severity : Severity
}.

Record IntegrityConfig : Type := {
  enabled : bool;
  checkInterval : Z;
  maxFailures : Z;
  hashAlgorithm : HashAlgorithm;
  checksumSalt : string
}.

(** An entry of [getCodeElements()]. *)
Record CodeElement : Type := {
  id : string;
  content : string
}.

(** The verifier's fields, followed by the calls it has made: the events
    passed to [onTamperDetected] and to [handleCriticalTamperDetection]. *)
Record Verifier : Type := {
  config : IntegrityConfig;
  checks : gmap string IntegrityCheck;
  isVerifying : bool;
  buildTimeHashes : gmap string string;
  tamperEvents : list TamperEvent;
  criticalEvents : list TamperEvent
}.

Definition set_isVerifying (v : Verifier) (b : bool) : Verifier :=
  {| config := config v; checks := checks v; isVerifying := b;
     buildTimeHashes := buildTimeHashes v; tamperEvents := tamperEvents v;
     criticalEvents := criticalEvents v |}.

Definition set_buildTimeHashes (v : Verifier) (m : gmap string string) : Verifier :=
  {| config := config v; checks := checks v; isVerifying := isVerifying v;
     buildTimeHashes := m; tamperEvents := tamperEvents v;
     criticalEvents := criticalEvents v |}.

Definition set_checks (v : Verifier) (m : gmap string IntegrityCheck) : Verifier :=
  {| config := config v; checks := m; isVerifying := isVerifying v;
     buildTimeHashes := buildTimeHashes v; tamperEvents := tamperEvents v;
     criticalEvents := criticalEvents v |}.

Section WithPrimitives.

(** [CryptoJS.<alg>(text).toString()]: the digest, or a thrown error. *)
Variable digest : HashAlgorithm → string → outcome string.
(** What the configured [onTamperDetected] handler does with an event. *)
Variable onTamperDetected : TamperEvent → outcome unit.

(** [generateHash] *)
Definition generateHash (cfg : IntegrityConfig) (content identifier : string)
  : outcome string :=
  let saltedContent := content +:+ checksumSalt cfg +:+ identifier in
  match hashAlgorithm cfg with
  | SHA256 => digest SHA256 saltedContent
  | SHA512 => digest SHA512 saltedContent
  | MD5 => digest MD5 saltedContent
  end.

(** [handleIntegrityFailure] *)
Definition handleIntegrityFailure (v : Verifier) (now : Z)
    (elementId expected actual : string) : outcome unit * Verifier :=
  let failureCount :=
    match checks v !! elementId with
    | Some check => if failureCount check =? 0 then 1 else failureCount check
    | None => 1
    end in
  let tamperEvent :=
    {| type := "integrity_failure"; ev_timestamp := now;
       expectedHash := expected; actualHash := actual; location := elementId;
       severity := if maxFailures (config v) <=? failureCount then Critical else Medium |} in
  let v1 :=
    {| config := config v; checks := checks v; isVerifying := isVerifying v;
       buildTimeHashes := buildTimeHashes v;
       tamperEvents := tamperEvents v ++ [tamperEvent];
       criticalEvents := criticalEvents v |} in
  match onTamperDetected tamperEvent with
  | Thrown msg => (Thrown msg, v1)
  | Returned _ =>
      if maxFailures (config v) <=? failureCount then
        (Returned tt,
         {| config := config v1; checks := checks v1; isVerifying := isVerifying v1;
            buildTimeHashes := buildTimeHashes v1; tamperEvents := tamperEvents v1;
            criticalEvents := criticalEvents v1 ++ [tamperEvent] |})
      else (Returned tt, v1)
  end.

(** [verifyElement] *)
Definition verifyElement (v : Verifier) (now : Z) (element : CodeElement)
  : outcome bool * Verifier :=
  match generateHash (config v) (content element) (id element) with
  | Thrown msg => (Thrown msg, v)
  | Returned currentHash =>
      let adopt :=
        (* New element detected *)
        (Returned true,
         set_buildTimeHashes v (<[id element := currentHash]> (buildTimeHashes v))) in
      match buildTimeHashes v !! id element with
      | None => adopt
      | Some expected =>
          if bool_decide (expected = "") then adopt
          else
            let isValid := bool_decide (currentHash = expected) in
            (* Update check record *)
            let previous :=
              match checks v !! id element with
              | Some existing => failureCount existing
              | None => 0
              end in
            let check :=
              {| hash := currentHash; timestamp := now; verified := isValid;
                 failureCount := if isValid then 0 else previous + 1 |} in
            let v1 := set_checks v (<[id element := check]> (checks v)) in
            if isValid then (Returned true, v1)
            else
              match handleIntegrityFailure v1 now (id element) expected currentHash with
              | (Thrown msg, v2) => (Thrown msg, v2)
              | (Returned _, v2) => (Returned false, v2)
              end
      end
  end.

(** The loop of [performIntegrityCheck]: [allValid] is the running
    conjunction; a throw leaves the loop. *)
Fixpoint verifyLoop (v : Verifier) (now : Z) (elements : list CodeElement)
    (allValid : bool) : outcome bool * Verifier :=
  match elements with
  | [] => (Returned allValid, v)
  | element :: rest =>
      match verifyElement v now element with
      | (Thrown msg, v1) => (Thrown msg, v1)
      | (Returned isValid, v1) => verifyLoop v1 now rest (allValid && isValid)
      end
  end.

(** [performIntegrityCheck]: [elements] is what [getCodeElements()] finds.
    The [catch] turns a throw into [false]; the [finally] clears the flag. *)
Definition performIntegrityCheck (v : Verifier) (now : Z) (elements : list CodeElement)
  : outcome bool * Verifier :=
  if isVerifying v then (Returned true, v)   (* Already verifying *)
  else
    match verifyLoop (set_isVerifying v true) now elements true with
    | (Returned allValid, v1) => (Returned allValid, set_isVerifying v1 false)
    | (Thrown _, v1) => (Returned false, set_isVerifying v1 false)
    end.

End WithPrimitives.

(** A sample digest for closed examples: it fails on any text that
    starts with ['!'], and is the identity elsewhere. *)
Definition sampleDigest (alg : HashAlgorithm) (text : string) : outcome string :=
  match text with
  | String "!"%char _ => Thrown "digest failed"
  | _ => Returned text
  end.

Definition sampleHandler (e : TamperEvent) : outcome unit := Returned tt.

Definition sampleIntegrityConfig : IntegrityConfig :=
  {| enabled := true; checkInterval := 30000; maxFailures := 3;
     hashAlgorithm := SHA256; checksumSalt := "" |}.

(** A verifier whose baseline was seeded for three elements ["a"], ["b"],
    ["c"] with the digests of contents ["x"], ["y"], ["z"]. *)
Definition sampleVerifier : Verifier :=
  {| config := sampleIntegrityConfig; checks := ∅; isVerifying := false;
     buildTimeHashes := {[ "a" := "xa"; "b" := "yb"; "c" := "zc" ]};
     tamperEvents := []; criticalEvents := [] |}.

Definition elemA : CodeElement := {| id := "a"; content := "x" |}.
Definition elemB : CodeElement := {| id := "b"; content := "!y" |}.
Definition elemC : CodeElement := {| id := "c"; content := "tampered" |}.

End Integrity.

(** ** SecurityEventLogger: queue, flush, retry, local storage *)

Module EventLogger.

(** The values an event's [details] object holds, as far as the logger
    looks at them: [!details.retryCount] only asks whether a value is
    truthy.  [JsObject] stands for any array or object. *)
Inductive JsValue : Type :=
| JsUndefined
| JsNull
| JsBool (b : bool)
| JsNum (n : Z)
| JsStr (s : string)
| JsObject.

Definition truthy (v : JsValue) : bool :=
  match v with
  | JsUndefined | JsNull => false
  | JsBool b => b
  | JsNum n => negb (n =? 0)
  | JsStr s => negb (bool_decide (s = ""))
  | JsObject => true
  end.

Record SecurityEvent : Type := {
  id : string;
  type : string;
  severity : Severity;
  timestamp : Z;
  source : string;
  details : gmap string JsValue;
  userAgent : string;
  sessionId : string;
  fingerprint : string
}.

Record EventBatch : Type := {
  events : list SecurityEvent;
  batchId : string;
  batch_timestamp : Z;
  batch_sessionId : string
}.

Record SecurityEventLoggerConfig : Type := {
  enabled : bool;
  endpoint : option string;
  apiKey : option string;
  batchSize : Z;
  flushInterval : Z;     (* ms *)
  maxRetries : Z;
  retryDelay : Z;        (* ms *)
  localStorageKey : string;
  fingerprintingEnabled : bool;
  encryptionEnabled : bool
}.

(** The constructor's defaults. *)
Definition defaultConfig : SecurityEventLoggerConfig :=
  {| enabled := true; endpoint := None; apiKey := None;
     batchSize := 10; flushInterval := 30000; maxRetries := 3; retryDelay := 5000;
     localStorageKey := "sandro_security_events";
     fingerprintingEnabled := true; encryptionEnabled := false |}.

(** The logger's fields, the parts of the page it shares
    ([localStorage], and whether [console.log/warn/error] currently are the
    wrappers installed by [setupConsoleMonitoring]), and a trace of what it
    has done: the random draws used, every batch built by [flush], every
    batch handed to [fetch], and the number of [scheduleRetry] timers that
    are armed. *)
Record Logger : Type := mkLogger {
  config : SecurityEventLoggerConfig;
  eventQueue : list SecurityEvent;
  loggerSessionId : string;
  loggerFingerprint : string;
  isOnline : bool;
  retryQueue : list EventBatch;
  localStorage : gmap string (list EventBatch);
  consoleHooked : bool;
  draws : nat;
  flushed : list EventBatch;
  requests : list EventBatch;
  retryTimers : nat
}.

Definition set_eventQueue (st : Logger) (q : list SecurityEvent) : Logger :=
  mkLogger (config st) q (loggerSessionId st) (loggerFingerprint st) (isOnline st)
    (retryQueue st) (localStorage st) (consoleHooked st) (draws st) (flushed st)
    (requests st) (retryTimers st).

Definition set_retryQueue (st : Logger) (q : list EventBatch) : Logger :=
  mkLogger (config st) (eventQueue st) (loggerSessionId st) (loggerFingerprint st)
    (isOnline st) q (localStorage st) (consoleHooked st) (draws st) (flushed st)
    (requests st) (retryTimers st).

Definition set_localStorage (st : Logger) (m : gmap string (list EventBatch)) : Logger :=
  mkLogger (config st) (eventQueue st) (loggerSessionId st) (loggerFingerprint st)
    (isOnline st) (retryQueue st) m (consoleHooked st) (draws st) (flushed st)
    (requests st) (retryTimers st).

Definition set_consoleHooked (st : Logger) (b : bool) : Logger :=
  mkLogger (config st) (eventQueue st) (loggerSessionId st) (loggerFingerprint st)
    (isOnline st) (retryQueue st) (localStorage st) b (draws st) (flushed st)
    (requests st) (retryTimers st).

Definition set_isOnline (st : Logger) (b : bool) : Logger :=
  mkLogger (config st) (eventQueue st) (loggerSessionId st) (loggerFingerprint st)
    b (retryQueue st) (localStorage st) (consoleHooked st) (draws st) (flushed st)
    (requests st) (retryTimers st).

Definition next_draw (st : Logger) : Logger :=
  mkLogger (config st) (eventQueue st) (loggerSessionId st) (loggerFingerprint st)
    (isOnline st) (retryQueue st) (localStorage st) (consoleHooked st) (S (draws st))
    (flushed st) (requests st) (retryTimers st).

Definition add_flushed (st : Logger) (b : EventBatch) : Logger :=
  mkLogger (config st) (eventQueue st) (loggerSessionId st) (loggerFingerprint st)
    (isOnline st) (retryQueue st) (localStorage st) (consoleHooked st) (draws st)
    (flushed st ++ [b]) (requests st) (retryTimers st).

Definition add_request (st : Logger) (b : EventBatch) : Logger :=
  mkLogger (config st) (eventQueue st) (loggerSessionId st) (loggerFingerprint st)
    (isOnline st) (retryQueue st) (localStorage st) (consoleHooked st) (draws st)
    (flushed st) (requests st ++ [b]) (retryTimers st).

Definition set_retryTimers (st : Logger) (n : nat) : Logger :=
  mkLogger (config st) (eventQueue st) (loggerSessionId st) (loggerFingerprint st)
    (isOnline st) (retryQueue st) (localStorage st) (consoleHooked st) (draws st)
    (flushed st) (requests st) n.

(** [!this.config.endpoint]: no endpoint, or the empty string. *)
Definition hasEndpoint (cfg : SecurityEventLoggerConfig) : bool :=
  match endpoint cfg with
  | Some e => negb (bool_decide (e = ""))
  | None => false
  end.

(** The message of the [RangeError] raised when the call stack is used up. *)
Definition stackOverflow : string := "Maximum call stack size exceeded".

(** [storeLocally]: append to the stored array, keep the last 100. *)
Definition storeLocally (st : Logger) (batch : EventBatch) : Logger :=
  let key := localStorageKey (config st) in
  let existingBatches := default [] (localStorage st !! key) ++ [batch] in
  let kept :=
    if (100 <? length existingBatches)%nat
    then drop (length existingBatches - 100) existingBatches
    else existingBatches in
  set_localStorage st (<[key := kept]> (localStorage st)).

(** [sendBatch] up to its first suspension: without an endpoint the batch
    is stored locally and the call is over; with one, the request is
    issued and its result arrives later. *)
Definition sendBatch (st : Logger) (batch : EventBatch) : Logger :=
  if negb (hasEndpoint (config st)) then storeLocally st batch
  else add_request st batch.

(** [scheduleRetry]: arm one timer. *)
Definition scheduleRetry (st : Logger) : Logger :=
  set_retryTimers st (S (retryTimers st)).

(** [event.details.retryCount = 1] for every event of the batch. *)
Definition markRetried (batch : EventBatch) : EventBatch :=
  {| events :=
       (λ e, {| id := id e; type := type e; severity := severity e;
                timestamp := timestamp e; source := source e;
                details := <["retryCount" := JsNum 1]> (details e);
                userAgent := userAgent e; sessionId := sessionId e;
                fingerprint := fingerprint e |}) <$> events batch;
     batchId := batchId batch;
     batch_timestamp := batch_timestamp batch;
     batch_sessionId := batch_sessionId batch |}.

(** [batch.events[0] && !batch.events[0].details.retryCount] *)
Definition retriesRemaining (batch : EventBatch) : bool :=
  match events batch with
  | first :: _ => negb (truthy (default JsUndefined (details first !! "retryCount")))
  | [] => false
  end.

Section WithEnvironment.

(** The [k]-th value of [Math.random().toString(36).substr(2, 9)]. *)
Variable random : nat → string.
(** [navigator.userAgent] *)
Variable navigatorUserAgent : string.

Definition generateEventId (now : Z) (k : nat) : string :=
  "event_" +:+ pretty now +:+ "_" +:+ random k.

Definition generateBatchId (now : Z) (k : nat) : string :=
  "batch_" +:+ pretty now +:+ "_" +:+ random k.

(** The event object built by [logEvent]. *)
Definition makeEvent (st : Logger) (now : Z) (type : string)
    (details : gmap string JsValue) (severity : Severity) (source : string)
  : SecurityEvent :=
  {| id := generateEventId now (draws st); type := type; severity := severity;
     timestamp := now; source := source; details := details;
     userAgent := navigatorUserAgent; sessionId := loggerSessionId st;
     fingerprint := loggerFingerprint st |}.

(** [flush] up to the point where it waits for [sendBatch]. *)
Definition flush (st : Logger) (now : Z) : Logger :=
  if bool_decide (eventQueue st = []) || negb (isOnline st) then st
  else
    let batch := {| events := eventQueue st;
                    batchId := generateBatchId now (draws st);
                    batch_timestamp := now;
                    batch_sessionId := loggerSessionId st |} in
    sendBatch (add_flushed (next_draw (set_eventQueue st [])) batch) batch.

(** The [details] of the event a console wrapper logs. *)
Definition consoleDetails (method : string) : gmap string JsValue :=
  {[ "method" := JsStr method; "args" := JsObject ]}.

(** The body of [logEvent] from the construction of the event up to,
    and without, the final [console.log]. *)
Definition enqueue (st : Logger) (now : Z) (type : string)
    (details : gmap string JsValue) (severity : Severity) (source : string)
  : Logger :=
  let event := makeEvent st now type details severity source in
  let st1 := next_draw (set_eventQueue st (eventQueue st ++ [event])) in
  (* Immediate flush for critical events *)
  let st2 := if bool_decide (severity = Critical) then flush st1 now else st1 in
  (* Auto-flush if queue is full *)
  if batchSize (config st2) <=? Z.of_nat (length (eventQueue st2))
  then flush st2 now else st2.

(** [logEvent].  [fuel] bounds the depth of the call stack: the
    [console.log] at the end of the body is, while the wrappers are
    installed, a call of [logEvent('console_access', ..., 'low',
    'ConsoleMonitor')]. *)
Fixpoint logEvent (fuel : nat) (st : Logger) (now : Z) (type : string)
    (details : gmap string JsValue) (severity : Severity) (source : string)
  : outcome string * Logger :=
  match fuel with
  | O => (Thrown stackOverflow, st)
  | S fuel' =>
      if negb (enabled (config st)) then (Returned "", st)
      else
        let event := makeEvent st now type details severity source in
        let st3 := enqueue st now type details severity source in
        if consoleHooked st3 then
          match logEvent fuel' st3 now "console_access" (consoleDetails "log")
                  Low "ConsoleMonitor" with
          | (Returned _, st4) => (Returned (id event), st4)
          | (Thrown msg, st4) => (Thrown msg, st4)
          end
        else (Returned (id event), st3)
  end.

(** A call of [console.log], [console.warn] or [console.error] made by
    the logger: through the wrapper when installed ([severity] is the one
    the wrapper logs with), plain output otherwise. *)
Definition consoleCall (fuel : nat) (st : Logger) (now : Z)
    (method : string) (severity : Severity) : outcome unit * Logger :=
  if consoleHooked st then
    match logEvent fuel st now "console_access" (consoleDetails method)
            severity "ConsoleMonitor" with
    | (Returned _, st1) => (Returned tt, st1)
    | (Thrown msg, st1) => (Thrown msg, st1)
    end
  else (Returned tt, st).

(** The rest of [flush] once [sendBatch(batch)] has settled: [ok] tells
    whether it resolved (2xx, or stored locally) or rejected. *)
Definition flushSettled (fuel : nat) (st : Logger) (now : Z)
    (batch : EventBatch) (ok : bool) : outcome unit * Logger :=
  if ok then consoleCall fuel st now "log" Low
  else
    match consoleCall fuel st now "error" Medium with
    | (Thrown msg, st1) => (Thrown msg, st1)
    | (Returned _, st1) =>
        (Returned tt, scheduleRetry (set_retryQueue st1 (retryQueue st1 ++ [batch])))
    end.

(** A [scheduleRetry] timer fires: the head of the retry queue, if any,
    is taken off and sent. *)
Definition retryFire (st : Logger) : option EventBatch * Logger :=
  let st0 := set_retryTimers st (pred (retryTimers st)) in
  match retryQueue st0 with
  | [] => (None, st0)
  | batch :: rest => (Some batch, sendBatch (set_retryQueue st0 rest) batch)
  end.

(** The rest of the timer callback once the retried [sendBatch(batch)]
    has settled. *)
Definition retrySettled (fuel : nat) (st : Logger) (now : Z)
    (batch : EventBatch) (ok : bool) : outcome unit * Logger :=
  (* Continue processing retry queue *)
  let continue (s : Logger) : Logger :=
    if (0 <? length (retryQueue s))%nat then scheduleRetry s else s in
  if ok then
    match consoleCall fuel st now "log" Low with
    | (Thrown msg, st1) => (Thrown msg, st1)
    | (Returned _, st1) => (Returned tt, continue st1)
    end
  else
    match consoleCall fuel st now "error" Medium with
    | (Thrown msg, st1) => (Thrown msg, st1)
    | (Returned _, st1) =>
        (* Re-queue if retries remaining *)
        let st2 :=
          if retriesRemaining batch
          then set_retryQueue st1 (retryQueue st1 ++ [markRetried batch])
          else st1 in
        (Returned tt, continue st2)
    end.

(** [flushBeforeUnload] *)
Definition flushBeforeUnload (st : Logger) (now : Z) (hasBeacon : bool) : Logger :=
  if bool_decide (eventQueue st = []) then st
  else
    let batch := {| events := eventQueue st;
                    batchId := generateBatchId now (draws st);
                    batch_timestamp := now;
                    batch_sessionId := loggerSessionId st |} in
    let st1 := next_draw st in
    let st2 := if hasEndpoint (config st1) && hasBeacon
               then add_request st1 batch else storeLocally st1 batch in
    set_eventQueue st2 [].

(** Consecutive [logEvent] calls, each with its clock reading and
    arguments; stops at the first call that throws. *)
Fixpoint logEvents (fuel : nat) (st : Logger)
    (calls : list (Z * string * gmap string JsValue * Severity * string))
  : outcome (list string) * Logger :=
  match calls with
  | [] => (Returned [], st)
  | (now, type, details, severity, source) :: rest =>
      match logEvent fuel st now type details severity source with
      | (Thrown msg, st1) => (Thrown msg, st1)
      | (Returned i, st1) =>
          match logEvents fuel st1 rest with
          | (Thrown msg, st2) => (Thrown msg, st2)
          | (Returned ids, st2) => (Returned (i :: ids), st2)
          end
      end
  end.

(** The events [logEvents] builds when every call returns, no flush
    intervenes and the console is plain: call [k] uses draw [d + k]. *)
Fixpoint eventsOf (session fp : string) (d : nat)
    (calls : list (Z * string * gmap string JsValue * Severity * string))
  : list SecurityEvent :=
  match calls with
  | [] => []
  | (now, type, details, severity, source) :: rest =>
      {| id := generateEventId now d; type := type; severity := severity;
         timestamp := now; source := source; details := details;
         userAgent := navigatorUserAgent; sessionId := session;
         fingerprint := fp |} :: eventsOf session fp (S d) rest
  end.

End WithEnvironment.

(** The severity argument of a [logEvents] call. *)
Definition callSeverity (c : Z * string * gmap string JsValue * Severity * string)
  : Severity := c.1.2.

(** [b] differs from [a] at most in the event queue, the draw counter and
    the traces of built batches and requests, and in [localStorage] only
    when no endpoint is configured: the retry queue, the armed timers and
    (with an endpoint) the stored batches are those of [a]. *)
Definition keepsRetryState (a b : Logger) : Prop :=
  config b = config a
  ∧ consoleHooked b = consoleHooked a
  ∧ isOnline b = isOnline a
  ∧ loggerSessionId b = loggerSessionId a
  ∧ loggerFingerprint b = loggerFingerprint a
  ∧ retryQueue b = retryQueue a
  ∧ retryTimers b = retryTimers a
  ∧ (hasEndpoint (config a) = true → localStorage b = localStorage a)
  ∧ ∃ l, flushed b = flushed a ++ l.

(** [loadPendingEvents]: stored batches move to the retry queue. *)
Definition loadPendingEvents (st : Logger) : Logger :=
  let key := localStorageKey (config st) in
  match localStorage st !! key with
  | Some batches =>
      let st1 := set_localStorage (set_retryQueue st (retryQueue st ++ batches))
                   (delete key (localStorage st)) in
      if (0 <? length (retryQueue st1))%nat then scheduleRetry st1 else st1
  | None => st
  end.

(** The constructor, on a page whose [localStorage] is [storage]:
    [setupConsoleMonitoring] installs the console wrappers, then
    [loadPendingEvents] runs. *)
Definition newLogger (cfg : SecurityEventLoggerConfig) (session fp : string)
    (storage : gmap string (list EventBatch)) : Logger :=
  loadPendingEvents
    {| config := cfg; eventQueue := []; loggerSessionId := session;
       loggerFingerprint := fp; isOnline := true; retryQueue := [];
       localStorage := storage; consoleHooked := true; draws := 0;
       flushed := []; requests := []; retryTimers := 0 |}.

(** Sample environment for closed examples. *)
Definition sampleRandom (k : nat) : string := "r" +:+ pretty (Z.of_nat k).

Definition remoteConfig : SecurityEventLoggerConfig :=
  {| enabled := true; endpoint := Some "https://log.example/events"; apiKey := None;
     batchSize := 2; flushInterval := 30000; maxRetries := 3; retryDelay := 5000;
     localStorageKey := "sandro_security_events";
     fingerprintingEnabled := true; encryptionEnabled := false |}.

Definition sampleCall (now : Z) : Z * string * gmap string JsValue * Severity * string :=
  (now, "suspicious_activity", ∅, Medium, "test").

End EventLogger.

(** ** AssetProtectionService: the remaining accessors *)

Module AssetProtectionOps.
Import AssetProtection.

(** [arr.slice(start)]: a negative [start] counts from the end, and both
    ends are clamped to the array. *)
Definition js_slice_from {A} (start : Z) (l : list A) : list A :=
  let len := Z.of_nat (length l) in
  let from := if start <? 0 then Z.max (len + start) 0 else Z.min start len in
  drop (Z.to_nat from) l.

(** [getAccessLogs(limit)]: [this.accessLogs.slice(-limit)]. *)
Definition getAccessLogs (svc : Service) (limit : Z) : list AssetAccessLog :=
  js_slice_from (- limit) (accessLogs svc).

(** A string without the character ['.']. *)
Fixpoint noDot (s : string) : bool :=
  match s with
  | EmptyString => true
  | String a r => negb (Ascii.eqb a ".") && noDot r
  end.

(** Whether [generateSignedUrl] returned a grant. *)
Definition issued (r : outcome SignedAssetUrl * Service) : bool :=
  match r.1 with Returned _ => true | Thrown _ => false end.

End AssetProtectionOps.

(** ** Rate limiter: a sample state *)

Module RateLimiterSamples.
Import RateLimiter.

(** A session of client "client_0_ab12" whose entry for "/api/x" has
    reached the ceiling of the window opened at clock 0. *)
Definition stateAtCeiling : State :=
  {| sessionStorage := {[ "client_id" := "client_0_ab12" ]};
     rateLimitStore :=
       {[ "client_0_ab12:/api/x" :=
            {| count := 100; firstRequest := 0; lastRequest := 10; blocked := false |} ]} |}.

End RateLimiterSamples.

(** ** APIObfuscator: endpoint mappings and their rotation *)

Module Obfuscator.

Record EndpointMapping : Type := {
  original : string;
  obfuscated : string;
  method : string;
  created : Z;
  expires : Z
}.

(** [endpointMappings] is iterated by [rotateMappings], so it is kept in
    insertion order, as a JavaScript [Map] keeps it; the reverse map is
    only read and written by key. *)
Record State : Type := {
  rotationInterval : Z;          (* minutes *)
  endpointMappings : list (string * EndpointMapping);
  reverseEndpointMappings : gmap string string
}.

(** [Map.get] on an insertion-ordered map. *)
Fixpoint map_get {V} (k : string) (m : list (string * V)) : option V :=
  match m with
  | [] => None
  | (k', v) :: rest => if bool_decide (k' = k) then Some v else map_get k rest
  end.

(** [Map.set]: an existing key keeps its place, a new key goes last. *)
Fixpoint map_set {V} (k : string) (v : V) (m : list (string * V)) : list (string * V) :=
  match m with
  | [] => [(k, v)]
  | (k', v') :: rest =>
      if bool_decide (k' = k) then (k, v) :: rest else (k', v') :: map_set k v rest
  end.

(** [createEndpointMapping]; [obf] is what [generateObfuscatedPath()]
    returns for this call. *)
Definition createEndpointMapping (st : State) (now : Z) (obf : string)
    (originalPath mth : string) : string * State :=
  let exp := now + rotationInterval st * 60 * 1000 in
  let mapping := {| original := originalPath; obfuscated := obf; method := mth;
                    created := now; expires := exp |} in
  (obf,
   {| rotationInterval := rotationInterval st;
      endpointMappings := map_set originalPath mapping (endpointMappings st);
      reverseEndpointMappings := <[obf := originalPath]> (reverseEndpointMappings st) |}).

(** [getObfuscatedEndpoint] *)
Definition getObfuscatedEndpoint (st : State) (now : Z) (originalPath : string)
  : option string :=
  match map_get originalPath (endpointMappings st) with
  | Some mapping => if now <? expires mapping then Some (obfuscated mapping) else None
  | None => None
  end.

(** [getOriginalEndpoint]: [reverse.get(path) || null]. *)
Definition getOriginalEndpoint (st : State) (obfuscatedPath : string) : option string :=
  match reverseEndpointMappings st !! obfuscatedPath with
  | Some p => if bool_decide (p = "") then None else Some p
  | None => None
  end.

Section WithRandom.

(** The [k]-th obfuscated path generated during one rotation. *)
Variable fresh : nat → string.

(** The endpoint loop of [rotateMappings] over the entries in map order;
    [k] counts the paths generated so far. *)
Fixpoint rotateLoop (entries : list (string * EndpointMapping)) (st : State)
    (now : Z) (k : nat) : State :=
  match entries with
  | [] => st
  | (originalPath, mapping) :: rest =>
      if expires mapping <=? now then
        (* Remove old mapping *)
        let st1 :=
          {| rotationInterval := rotationInterval st;
             endpointMappings := endpointMappings st;
             reverseEndpointMappings :=
               delete (obfuscated mapping) (reverseEndpointMappings st) |} in
        (* Create new mapping *)
        let st2 := (createEndpointMapping st1 now (fresh k) originalPath
                      (method mapping)).2 in
        rotateLoop rest st2 now (S k)
      else rotateLoop rest st now k
  end.

Definition rotateEndpoints (st : State) (now : Z) : State :=
  rotateLoop (endpointMappings st) st now 0.

End WithRandom.

(** A map holds each key once. *)
Definition wellFormed (st : State) : Prop := NoDup (fst <$> endpointMappings st).

Definition sampleFresh (k : nat) : string := "/n" +:+ pretty (Z.of_nat k).

Definition sampleObfuscator : State :=
  (createEndpointMapping
     (createEndpointMapping
        {| rotationInterval := 60; endpointMappings := [];
           reverseEndpointMappings := ∅ |}
        0 "/ab12/cd34ef/gh567" "/api/auth/login" "POST").2
     1000 "/zz00/yy11xx/ww222" "/api/user/profile" "GET").2.

End Obfuscator.

(** ** DevToolsDetector: manual check and successive ticks *)

Module DevToolsOps.
Import DevTools.

Section WithProbes.

Variable timingBasedDetection : Z → outcome DetectionResult.
Variable resizeBasedDetection : Z → outcome DetectionResult.
Variable consoleBasedDetection : Z → outcome DetectionResult.
Variable debuggerBasedDetection : Z → outcome DetectionResult.

(** The loop of [checkNow]: as in [runDetection], but without the
    [try]/[catch] around a probe. *)
Fixpoint checkNowLoop (methods : list string) (now : Z)
  : outcome (list DetectionResult) :=
  match methods with
  | [] => Returned []
  | mth :: rest =>
      match detectByMethod timingBasedDetection resizeBasedDetection
              consoleBasedDetection debuggerBasedDetection mth now with
      | Thrown msg => Thrown msg
      | Returned result =>
          match checkNowLoop rest now with
          | Thrown msg => Thrown msg
          | Returned results =>
              Returned (match result with
                        | Some r => r :: results
                        | None => results
                        end)
          end
      end
  end.

(** [checkNow] *)
Definition checkNow (d : Detector) (now : Z) : outcome (list DetectionResult) :=
  checkNowLoop (detectionMethods (config d)) now.

(** The interval timer: one [runDetection] per clock reading; a tick that
    throws does not stop the timer. *)
Definition runTicks (d : Detector) (ticks : list Z) : Detector :=
  foldl (λ d now,
           (runDetection timingBasedDetection resizeBasedDetection
              consoleBasedDetection debuggerBasedDetection d now).2)
        d ticks.

End WithProbes.

End DevToolsOps.

(** ** IntegrityVerifier: successive checks of one element *)

Module IntegrityOps.
Import Integrity.

Section WithPrimitives.

Variable digest : HashAlgorithm → string → outcome string.
Variable onTamperDetected : TamperEvent → outcome unit.

(** One [verifyElement] of [element] per clock reading, in order. *)
Definition verifyCycles (v : Verifier) (times : list Z) (element : CodeElement)
  : Verifier :=
  foldl (λ v now, (verifyElement digest onTamperDetected v now element).2) v times.

End WithPrimitives.

(** [existingCheck?.failureCount || 0] *)
Definition priorFailures (v : Verifier) (elementId : string) : Z :=
  match checks v !! elementId with
  | Some check => failureCount check
  | None => 0
  end.

End IntegrityOps.

(** ** SecurityMonitor: alert bookkeeping *)

Module MonitorOps.
Import Monitor.

Definition set_alerts (m : SecurityMonitor) (l : list SecurityAlert) : SecurityMonitor :=
  {| startTime := startTime m; isActive := isActive m; alerts := l;
     metrics := metrics m |}.

(** [this.alerts.push(alert)] *)
Definition pushAlert (m : SecurityMonitor) (a : SecurityAlert) : SecurityMonitor :=
  set_alerts m (alerts m ++ [a]).

Definition acknowledge (a : SecurityAlert) : SecurityAlert :=
  {| id := id a; type := type a; severity := severity a; message := message a;
     details := details a; timestamp := timestamp a; acknowledged := true |}.

(** [alerts.find(a => a.id === alertId)], the found alert acknowledged in
    place. *)
Fixpoint acknowledgeFirst (alertId : string) (l : list SecurityAlert)
  : bool * list SecurityAlert :=
  match l with
  | [] => (false, [])
  | a :: rest =>
      if bool_decide (id a = alertId) then (true, acknowledge a :: rest)
      else let '(found, rest') := acknowledgeFirst alertId rest in (found, a :: rest')
  end.

(** [acknowledgeAlert] *)
Definition acknowledgeAlert (m : SecurityMonitor) (alertId : string)
  : bool * SecurityMonitor :=
  let '(found, l) := acknowledgeFirst alertId (alerts m) in (found, set_alerts m l).

(** [processAlerts]: auto-acknowledge old low-severity alerts. *)
Definition processAlerts (m : SecurityMonitor) (now : Z) : SecurityMonitor :=
  let oneHourAgo := now - 3600000 in
  set_alerts m
    ((λ a, if negb (acknowledged a) && bool_decide (severity a = Low)
              && (timestamp a <? oneHourAgo)
           then acknowledge a else a) <$> alerts m).

(** [cleanup] *)
Definition cleanup (m : SecurityMonitor) (now : Z) : SecurityMonitor :=
  let oneDayAgo := now - 86400000 in
  (* Remove old acknowledged alerts *)
  let kept := filter (λ a, acknowledged a = false ∨ oneDayAgo < timestamp a) (alerts m) in
  (* Limit total alerts to prevent memory issues *)
  set_alerts m
    (if (1000 <? length kept)%nat then drop (length kept - 1000) kept else kept).

(** [processAlerts(); cleanup()] as one [performSecurityCheck] runs them,
    each with its own clock reading. *)
Definition alertTick (m : SecurityMonitor) (now : Z * Z) : SecurityMonitor :=
  cleanup (processAlerts m now.1) now.2.

Definition alertTicks (m : SecurityMonitor) (times : list (Z * Z)) : SecurityMonitor :=
  foldl alertTick m times.

(** [arr.sort((a, b) => b.timestamp - a.timestamp)]: the sort is stable,
    so an alert goes before the first one that is not newer than it. *)
Fixpoint insertByTime (a : SecurityAlert) (l : list SecurityAlert) : list SecurityAlert :=
  match l with
  | [] => [a]
  | b :: rest =>
      if timestamp a <? timestamp b then b :: insertByTime a rest else a :: b :: rest
  end.

Definition sortNewestFirst (l : list SecurityAlert) : list SecurityAlert :=
  foldr insertByTime [] l.

(** [arr.slice(0, end)] *)
Definition js_slice_to {A} (stop : Z) (l : list A) : list A :=
  let len := Z.of_nat (length l) in
  let to := if stop <? 0 then Z.max (len + stop) 0 else Z.min stop len in
  take (Z.to_nat to) l.

(** [getAlerts]: sorts [this.alerts] in place and returns a prefix. *)
Definition getAlerts (m : SecurityMonitor) (limit : Z)
  : list SecurityAlert * SecurityMonitor :=
  let sorted := sortNewestFirst (alerts m) in
  (js_slice_to limit sorted, set_alerts m sorted).

Definition severityRank (s : Severity) : Z :=
  match s with Low => 0 | Medium => 1 | High => 2 | Critical => 3 end.

(** The level [updateMetrics] derives from an alert list. *)
Definition levelOf (l : list SecurityAlert) : Severity :=
  if 0 <? countSeverity Critical l then Critical
  else if 2 <? countSeverity High l then High
  else if 10 <? Z.of_nat (length l) then Medium
  else Low.

Definition alertAt (i : string) (s : Severity) (t : Z) (ack : bool) : SecurityAlert :=
  {| id := i; type := "devtools_detected"; severity := s; message := "";
     details := ∅; timestamp := t; acknowledged := ack |}.

Definition sampleAlerts : list SecurityAlert :=
  [alertAt "a1" Low 10 false; alertAt "a2" Critical 20 false; alertAt "a3" High 5 true].

End MonitorOps.

(** ** SecurityEventLogger: token hashing *)

Module EventLoggerOps.
Import EventLogger.

(** [ToInt32]: the 32-bit two's complement reading of an integer. *)
Definition toInt32 (x : Z) : Z := (x + 2 ^ 31) mod 2 ^ 32 - 2 ^ 31.

(** One round of the loop of [hashToken], on the code unit
    [char = token.charCodeAt(i)]:
    [hash = ((hash << 5) - hash) + char; hash = hash & hash]. *)
Definition hashStep (hash : Z) (char : Z) : Z :=
  let h := toInt32 (Z.shiftl (toInt32 hash) 5) - hash + char in
  Z.land (toInt32 h) (toInt32 h).

(** The loop over the code units of the token, from left to right. *)
Definition hashLoop (hash : Z) (codes : list Z) : Z :=
  fold_left hashStep codes hash.

(** The code units of a token written in one-byte characters. *)
Definition charCodes (token : string) : list Z :=
  (λ c, Z.of_nat (nat_of_ascii c)) <$> list_ascii_of_string token.

(** [hashToken]: the number is printed in base 36. *)
Definition hashToken (token : string) : string :=
  toString36 (hashLoop 0 (charCodes token)).

(** The polynomial [c0 * 31^(n-1) + ... + c(n-1)] over the code units,
    started from [acc]. *)
Definition polyHash (acc : Z) (codes : list Z) : Z :=
  fold_left (λ h c, 31 * h + c) codes acc.

Definition sampleBatch (i : string) : EventBatch :=
  {| events := []; batchId := i; batch_timestamp := 0; batch_sessionId := "s" |}.

End EventLoggerOps.

(** * Properties of AssetProtectionService *)

Module AssetProtectionFacts.
Import AssetProtection.

Section Facts.

Variable HmacSHA256 : string → string → string.
Variable userAgent : string.

Local Notation issue := (generateSignedUrl HmacSHA256).
Local Notation validate := (validateSignedUrl HmacSHA256 userAgent).
Local Notation logAccess := (logAccess userAgent).

Lemma tokenCache_logAccess svc now tok ok r :
  tokenCache (logAccess svc now tok ok r) = tokenCache svc.
Proof. reflexivity. Qed.

Lemma config_logAccess svc now tok ok r :
  config (logAccess svc now tok ok r) = config svc.
Proof. reflexivity. Qed.

Lemma last_tail_snoc {A} (l : list A) (x : A) :
  (1 < length (l ++ [x]))%nat → last (tail (l ++ [x])) = Some x.
Proof.
  destruct l as [|a l]; simpl; [lia|].
  intros _. apply last_snoc.
Qed.

Lemma lastAccess_logAccess svc now tok ok r :
  lastAccess (logAccess svc now tok ok r) = Some (ok, r).
Proof.
  unfold lastAccess, AssetProtection.logAccess, set_accessLogs; simpl.
  destruct (1000 <? _) eqn:Hlen.
  - apply Z.ltb_lt in Hlen. rewrite last_tail_snoc by lia. reflexivity.
  - rewrite last_snoc. reflexivity.
Qed.

(** What [generateSignedUrl] stores and returns when the service is
    enabled and the extension is on the allow-list. *)
Lemma issue_enabled svc now rnd path :
  enabled (config svc) = true →
  getFileExtension path ∈ allowedExtensions (config svc) →
  ∃ g,
    issue svc now rnd path
      = (Returned g,
         set_tokenCache svc
           (<[token g := {| originalPath := path; td_expires := expires g |}]>
              (tokenCache svc)))
    ∧ token g = generateSecureToken now rnd
    ∧ expires g = now + urlExpiration (config svc) * 60 * 1000
    ∧ signature g
      = generateSignature HmacSHA256 (config svc) (token g) (expires g) path.
Proof.
  intros Hen Hext. unfold generateSignedUrl.
  rewrite Hen; simpl. rewrite bool_decide_eq_true_2 by exact Hext. simpl.
  eexists (Build_SignedAssetUrl _ _ _ _). simpl.
  split; [reflexivity|]. auto.
Qed.

(** The three verdicts of [validateSignedUrl] on a stored token. *)
Lemma validate_expired svc now tok sig exp td :
  enabled (config svc) = true →
  tokenCache svc !! tok = Some td →
  exp < now ∨ td_expires td < now →
  validate svc now tok sig exp
  = (None, logAccess (set_tokenCache svc (delete tok (tokenCache svc)))
                     now tok false (Some "Token expired")).
Proof.
  intros Hen Htok Hexp. unfold validateSignedUrl. rewrite Hen, Htok; simpl.
  replace ((exp <? now) || (td_expires td <? now)) with true; [reflexivity|].
  symmetry. apply orb_true_iff. rewrite !Z.ltb_lt. exact Hexp.
Qed.

Lemma validate_live svc now tok sig exp td :
  enabled (config svc) = true →
  tokenCache svc !! tok = Some td →
  now ≤ exp → now ≤ td_expires td →
  validate svc now tok sig exp
  = if bool_decide
         (sig ≠ generateSignature HmacSHA256 (config svc) tok exp (originalPath td))
    then (None, logAccess svc now tok false (Some "Invalid signature"))
    else (Some (originalPath td), logAccess svc now tok true None).
Proof.
  intros Hen Htok H1 H2. unfold validateSignedUrl. rewrite Hen, Htok; simpl.
  replace ((exp <? now) || (td_expires td <? now)) with false; [reflexivity|].
  symmetry. apply orb_false_iff. rewrite !Z.ltb_ge. auto.
Qed.

Lemma validate_live_ok svc now tok exp path :
  enabled (config svc) = true →
  tokenCache svc !! tok = Some {| originalPath := path; td_expires := exp |} →
  now ≤ exp →
  validate svc now tok (generateSignature HmacSHA256 (config svc) tok exp path) exp
  = (Some path, logAccess svc now tok true None).
Proof.
  intros Hen Htok H1. rewrite (validate_live _ _ _ _ _ _ Hen Htok) by (simpl; lia).
  simpl. rewrite bool_decide_eq_false_2; [reflexivity|]. intros Hne. now apply Hne.
Qed.

Lemma validate_live_mismatch svc now tok sig exp path :
  enabled (config svc) = true →
  tokenCache svc !! tok = Some {| originalPath := path; td_expires := exp |} →
  now ≤ exp →
  sig ≠ generateSignature HmacSHA256 (config svc) tok exp path →
  validate svc now tok sig exp
  = (None, logAccess svc now tok false (Some "Invalid signature")).
Proof.
  intros Hen Htok H1 Hne. rewrite (validate_live _ _ _ _ _ _ Hen Htok) by (simpl; lia).
  simpl. rewrite bool_decide_eq_true_2 by exact Hne. reflexivity.
Qed.

Lemma differsInOneChar_neq (s t : string) :
  differsInOneChar s t = true → s ≠ t.
Proof.
  revert t. induction s as [|a s IH]; intros [|b t]; simpl; try discriminate.
  destruct (Ascii.eqb_spec a b) as [->|Hab].
  - intros H Heq. apply (IH t H). congruence.
  - intros _ Heq. congruence.
Qed.

(** C1 (amended): a grant just issued validates with its own token,
    signature and expiry at every clock reading [now' ≤ expires], returning
    the original path; at every reading [now' > expires] validation returns
    no path, logs the reason "Token expired" and deletes the token's entry
    from [tokenCache]. *)
Theorem issued_grant_expiry svc now rnd path :
  enabled (config svc) = true →
  getFileExtension path ∈ allowedExtensions (config svc) →
  ∃ g, (generateSignedUrl HmacSHA256 svc now rnd path).1 = Returned g ∧
    ∀ now',
      let r := validateSignedUrl HmacSHA256 userAgent (generateSignedUrl HmacSHA256 svc now rnd path).2 now'
                        (token g) (signature g) (expires g) in
      (now' ≤ expires g →
         r.1 = Some path ∧ lastAccess r.2 = Some (true, None))
      ∧ (expires g < now' →
         r.1 = None
         ∧ lastAccess r.2 = Some (false, Some "Token expired")
         ∧ tokenCache r.2 !! token g = None).
Proof.
  intros Hen Hext.
  destruct (issue_enabled svc now rnd path Hen Hext) as (g & Hg & _ & _ & Hsig).
  exists g. rewrite Hg; simpl. split; [reflexivity|]. intros now'.
  set (svc' := set_tokenCache svc _).
  assert (Hst : tokenCache svc' !! token g
                = Some {| originalPath := path; td_expires := expires g |})
    by apply lookup_insert_eq.
  split; intros Hnow.
  - rewrite Hsig. change (config svc) with (config svc').
    rewrite (validate_live_ok svc' now' (token g) (expires g) path Hen Hst Hnow).
    simpl. split; [reflexivity|]. apply lastAccess_logAccess.
  - rewrite (validate_expired svc' now' (token g) _ (expires g) _ Hen Hst) by (left; lia).
    simpl. split; [reflexivity|]. split; [apply lastAccess_logAccess|].
    apply lookup_delete_eq.
Qed.

(** C2: for a stored grant that has not expired, presenting a signature
    that differs in exactly one character from the one issued for it (same
    token, same expiry) returns no path and logs "Invalid signature"; the
    grant stays in [tokenCache]. *)
Theorem mutated_signature_rejected svc now tok td sig' :
  enabled (config svc) = true →
  tokenCache svc !! tok = Some td →
  now ≤ td_expires td →
  differsInOneChar
    (generateSignature HmacSHA256 (config svc) tok (td_expires td) (originalPath td))
    sig' = true →
  let r := validateSignedUrl HmacSHA256 userAgent svc now tok sig' (td_expires td) in
  r.1 = None
  ∧ lastAccess r.2 = Some (false, Some "Invalid signature")
  ∧ tokenCache r.2 = tokenCache svc.
Proof.
  intros Hen Hst Hnow Hdiff. destruct td as [path exp]; simpl in *.
  rewrite (validate_live_mismatch svc now tok sig' exp path Hen Hst Hnow).
  - simpl. split; [reflexivity|]. split; [apply lastAccess_logAccess | reflexivity].
  - intros Heq. apply (differsInOneChar_neq _ _ Hdiff). symmetry. exact Heq.
Qed.

(** C9: validating a stored grant twice with its token, the signature
    issued for it and its expiry, both times no later than that expiry,
    returns the original path both times, and neither validation changes
    [tokenCache]. *)
Theorem validate_twice_same_path svc now1 now2 tok td :
  enabled (config svc) = true →
  tokenCache svc !! tok = Some td →
  now1 ≤ td_expires td → now2 ≤ td_expires td →
  let sig := generateSignature HmacSHA256 (config svc) tok (td_expires td)
               (originalPath td) in
  let r1 := validateSignedUrl HmacSHA256 userAgent svc now1 tok sig (td_expires td) in
  let r2 := validateSignedUrl HmacSHA256 userAgent r1.2 now2 tok sig (td_expires td) in
  r1.1 = Some (originalPath td) ∧ r2.1 = Some (originalPath td)
  ∧ tokenCache r1.2 = tokenCache svc
  ∧ tokenCache r2.2 = tokenCache svc.
Proof.
  intros Hen Hst H1 H2. destruct td as [path exp]; simpl in *.
  pose proof (validate_live_ok svc now1 tok exp path Hen Hst H1) as E1.
  pose proof (validate_live_ok (logAccess svc now1 tok true None) now2
                tok exp path Hen Hst H2) as E2.
  change (config (logAccess svc now1 tok true None)) with (config svc) in E2.
  rewrite E1. cbn [fst snd]. rewrite E2. cbn [fst snd].
  repeat split.
Qed.

(** C10: with [enabled = false], [generateSignedUrl] returns the asset
    path itself as url with empty token, zero expiry and empty signature for
    every path (no allow-list check, state unchanged), and
    [validateSignedUrl] returns null for every token. *)
Theorem disabled_service_passthrough svc :
  enabled (config svc) = false →
  (∀ now rnd path,
     generateSignedUrl HmacSHA256 svc now rnd path
     = (Returned {| url := path; token := ""; expires := 0; signature := "" |}, svc))
  ∧ (∀ now tok sig exp, validateSignedUrl HmacSHA256 userAgent svc now tok sig exp = (None, svc)).
Proof.
  intros Hen. split; intros.
  - unfold generateSignedUrl. rewrite Hen. reflexivity.
  - unfold validateSignedUrl. rewrite Hen. reflexivity.
Qed.

End Facts.

End AssetProtectionFacts.

(** ** Closed instances for AssetProtectionService *)

Module AssetProtectionExamples.
Import AssetProtection AssetProtectionFacts.

Example getFileExtension_png : getFileExtension "/img/a.png" = ".png".
Proof. reflexivity. Qed.

Example getFileExtension_nodot : getFileExtension "README" = "README".
Proof. reflexivity. Qed.

Example generateSecureToken_sample : generateSecureToken 71 "c0ffee" = "1zc0ffee".
Proof. reflexivity. Qed.

(** C1, as stated, fails at the expiry instant itself: a grant issued at
    clock 0 with the default 15 minute lifetime expires at 900000, and a
    validation at clock 900000 (so [now ≥ expires]) still returns the path
    and leaves the token in [tokenCache]. *)
Lemma validate_at_expiry_instant_succeeds :
  let svc := newService (defaultConfig "k") in
  let issued := generateSignedUrl sampleHmac svc 0 "r" "/img/a.png" in
  ∃ g, issued.1 = Returned g
    ∧ expires g = 900000
    ∧ expires g ≤ 900000
    ∧ let r := validateSignedUrl sampleHmac "server" issued.2 900000
                 (token g) (signature g) (expires g) in
      r.1 = Some "/img/a.png"
      ∧ lastAccess r.2 = Some (true, None)
      ∧ tokenCache r.2 !! token g
        = Some {| originalPath := "/img/a.png"; td_expires := 900000 |}.
Proof.
  exists {| url := "/secure-assets/0r?exp=900000&sig=k#0r:900000:/img/a.png";
            token := "0r"; expires := 900000;
            signature := "k#0r:900000:/img/a.png" |}.
  split; [reflexivity|]. split; [reflexivity|]. split; [simpl; lia|].
  vm_compute. repeat split.
Qed.

(** [issued_grant_expiry] at the default configuration and the path "/img/a.png". *)
Lemma issued_grant_expiry_witness :
  let svc := newService (defaultConfig "k") in
  enabled (config svc) = true
  ∧ getFileExtension "/img/a.png" ∈ allowedExtensions (config svc)
  ∧ ∃ g, (generateSignedUrl sampleHmac svc 0 "r" "/img/a.png").1 = Returned g ∧
      ∀ now',
        let r := validateSignedUrl sampleHmac "server"
                   (generateSignedUrl sampleHmac svc 0 "r" "/img/a.png").2 now'
                   (token g) (signature g) (expires g) in
        (now' ≤ expires g →
           r.1 = Some "/img/a.png" ∧ lastAccess r.2 = Some (true, None))
        ∧ (expires g < now' →
           r.1 = None
           ∧ lastAccess r.2 = Some (false, Some "Token expired")
           ∧ tokenCache r.2 !! token g = None).
Proof.
  cbv zeta.
  assert (Hen : enabled (config (newService (defaultConfig "k"))) = true)
    by reflexivity.
  assert (Hext : getFileExtension "/img/a.png"
                 ∈ allowedExtensions (config (newService (defaultConfig "k"))))
    by (apply (bool_decide_unpack _); vm_compute; exact I).
  split; [exact Hen|]. split; [exact Hext|].
  exact (issued_grant_expiry sampleHmac "server"
           (newService (defaultConfig "k")) 0 "r" "/img/a.png" Hen Hext).
Defined.

(** The grant of the examples below: issued at clock 0 for "/img/a.png". *)
Example sample_grant_issued :
  generateSignedUrl sampleHmac (newService (defaultConfig "k")) 0 "r" "/img/a.png"
  = (Returned {| url := "/secure-assets/0r?exp=900000&sig=k#0r:900000:/img/a.png";
                 token := "0r"; expires := 900000;
                 signature := "k#0r:900000:/img/a.png" |},
     sampleIssued).
Proof. vm_compute. reflexivity. Qed.

(** [mutated_signature_rejected] on the sample grant, last character of the
    signature changed from "g" to "G". *)
Lemma mutated_signature_rejected_witness :
  let td := {| originalPath := "/img/a.png"; td_expires := 900000 |} in
  enabled (config sampleIssued) = true
  ∧ tokenCache sampleIssued !! "0r" = Some td
  ∧ 5 ≤ td_expires td
  ∧ differsInOneChar
      (generateSignature sampleHmac (config sampleIssued) "0r" (td_expires td)
         (originalPath td))
      "k#0r:900000:/img/a.pnG" = true
  ∧ let r := validateSignedUrl sampleHmac "server" sampleIssued 5 "0r"
               "k#0r:900000:/img/a.pnG" (td_expires td) in
    r.1 = None
    ∧ lastAccess r.2 = Some (false, Some "Invalid signature")
    ∧ tokenCache r.2 = tokenCache sampleIssued.
Proof.
  cbv zeta.
  assert (H1 : enabled (config sampleIssued) = true) by reflexivity.
  assert (H2 : tokenCache sampleIssued !! "0r"
               = Some {| originalPath := "/img/a.png"; td_expires := 900000 |})
    by (vm_compute; reflexivity).
  assert (H3 : 5 ≤ td_expires {| originalPath := "/img/a.png"; td_expires := 900000 |})
    by (simpl; lia).
  assert (H4 : differsInOneChar
                 (generateSignature sampleHmac (config sampleIssued) "0r"
                    (td_expires {| originalPath := "/img/a.png"; td_expires := 900000 |})
                    (originalPath {| originalPath := "/img/a.png"; td_expires := 900000 |}))
                 "k#0r:900000:/img/a.pnG" = true)
    by (vm_compute; reflexivity).
  split; [exact H1|]. split; [exact H2|]. split; [exact H3|]. split; [exact H4|].
  exact (mutated_signature_rejected sampleHmac "server" sampleIssued 5 "0r"
           {| originalPath := "/img/a.png"; td_expires := 900000 |}
           "k#0r:900000:/img/a.pnG" H1 H2 H3 H4).
Defined.

(** [validate_twice_same_path] on the sample grant at clocks 5 and 600000. *)
Lemma validate_twice_same_path_witness :
  let td := {| originalPath := "/img/a.png"; td_expires := 900000 |} in
  enabled (config sampleIssued) = true
  ∧ tokenCache sampleIssued !! "0r" = Some td
  ∧ 5 ≤ td_expires td
  ∧ 600000 ≤ td_expires td
  ∧ let sig := generateSignature sampleHmac (config sampleIssued) "0r" (td_expires td)
                 (originalPath td) in
    let r1 := validateSignedUrl sampleHmac "server" sampleIssued 5 "0r" sig
                (td_expires td) in
    let r2 := validateSignedUrl sampleHmac "server" r1.2 600000 "0r" sig
                (td_expires td) in
    r1.1 = Some (originalPath td) ∧ r2.1 = Some (originalPath td)
    ∧ tokenCache r1.2 = tokenCache sampleIssued
    ∧ tokenCache r2.2 = tokenCache sampleIssued.
Proof.
  cbv zeta.
  assert (H1 : enabled (config sampleIssued) = true) by reflexivity.
  assert (H2 : tokenCache sampleIssued !! "0r"
               = Some {| originalPath := "/img/a.png"; td_expires := 900000 |})
    by (vm_compute; reflexivity).
  assert (H3 : 5 ≤ td_expires {| originalPath := "/img/a.png"; td_expires := 900000 |})
    by (simpl; lia).
  assert (H4 : 600000
               ≤ td_expires {| originalPath := "/img/a.png"; td_expires := 900000 |})
    by (simpl; lia).
  split; [exact H1|]. split; [exact H2|]. split; [exact H3|]. split; [exact H4|].
  exact (validate_twice_same_path sampleHmac "server" sampleIssued 5 600000 "0r"
           {| originalPath := "/img/a.png"; td_expires := 900000 |} H1 H2 H3 H4).
Defined.

(** [disabled_service_passthrough] on the development preset, with a path
    whose extension is not on the allow-list. *)
Lemma disabled_service_passthrough_witness :
  enabled (config (newService disabledConfig)) = false
  ∧ generateSignedUrl sampleHmac (newService disabledConfig) 7 "r" "/tool.exe"
    = (Returned {| url := "/tool.exe"; token := ""; expires := 0; signature := "" |},
       newService disabledConfig)
  ∧ validateSignedUrl sampleHmac "server" (newService disabledConfig) 7 "" "" 0
    = (None, newService disabledConfig).
Proof.
  assert (Hen : enabled (config (newService disabledConfig)) = false) by reflexivity.
  destruct (disabled_service_passthrough sampleHmac "server"
              (newService disabledConfig) Hen) as [Hgen Hval].
  split; [exact Hen|]. split; [apply Hgen | apply Hval].
Defined.

End AssetProtectionExamples.

(** * Properties of the rate limiter *)

Module RateLimiterFacts.
Import RateLimiter.

Lemma Forall_eq_replicate {A} (x : A) (l : list A) :
  Forall (λ o, o = x) l → l = replicate (length l) x.
Proof.
  induction 1 as [|o os Ho _ IH]; simpl; [reflexivity|].
  rewrite Ho. f_equal. exact IH.
Qed.

Lemma getClientId_stable st cid now rnd :
  hasClient st cid → getClientId st now rnd = (cid, st).
Proof.
  intros [Hc Hne]. unfold getClientId. rewrite Hc.
  rewrite bool_decide_eq_false_2 by exact Hne. reflexivity.
Qed.

Lemma getClientId_hasClient st now rnd :
  hasClient (getClientId st now rnd).2 (getClientId st now rnd).1.
Proof.
  assert (Hfresh : ∀ s, "client_" +:+ s ≠ "") by (intros s; discriminate).
  unfold getClientId, hasClient.
  destruct (sessionStorage st !! "client_id") as [cid|] eqn:Hc.
  - case_bool_decide as Hcid; simpl.
    + split; [apply lookup_insert_eq | apply Hfresh].
    + split; assumption.
  - simpl. split; [apply lookup_insert_eq | apply Hfresh].
Qed.

Lemma getClientId_store st now rnd :
  rateLimitStore (getClientId st now rnd).2 = rateLimitStore st.
Proof.
  unfold getClientId.
  destruct (sessionStorage st !! "client_id") as [cid|]; [case_bool_decide|]; reflexivity.
Qed.

Lemma hasClient_set st cid m : hasClient st cid → hasClient (set_rateLimitStore st m) cid.
Proof. intros H; exact H. Qed.

(** One call when the entry's window is still running. *)
Lemma checkRateLimit_in_window st cid url e now rnd :
  hasClient st cid →
  rateLimitStore st !! (cid +:+ ":" +:+ url) = Some e →
  now - firstRequest e ≤ windowSize →
  checkRateLimit st now rnd url
  = if maxRequests <? count e + 1 then
      (Thrown ("Rate limit exceeded for " +:+ url),
       set_rateLimitStore st
         (<[cid +:+ ":" +:+ url :=
              {| count := count e + 1; firstRequest := firstRequest e;
                 lastRequest := now; blocked := true |}]> (rateLimitStore st)))
    else
      (Returned tt,
       set_rateLimitStore st
         (<[cid +:+ ":" +:+ url :=
              {| count := count e + 1; firstRequest := firstRequest e;
                 lastRequest := now; blocked := blocked e |}]> (rateLimitStore st))).
Proof.
  intros Hcl He Hwin. unfold checkRateLimit.
  rewrite (getClientId_stable st cid now rnd Hcl). rewrite He.
  replace (windowSize <? now - firstRequest e) with false
    by (symmetry; apply Z.ltb_ge; exact Hwin).
  simpl. destruct (maxRequests <? count e + 1); reflexivity.
Qed.

(** One call that opens a window: no entry, or an entry whose window ran out. *)
Lemma checkRateLimit_opens st url now rnd :
  opensWindow st (rateLimitKey st now rnd url) now →
  checkRateLimit st now rnd url
  = (Returned tt,
     set_rateLimitStore (getClientId st now rnd).2
       (<[rateLimitKey st now rnd url :=
            {| count := 1; firstRequest := now; lastRequest := now; blocked := false |}]>
          (rateLimitStore st))).
Proof.
  unfold opensWindow, rateLimitKey, checkRateLimit.
  pose proof (getClientId_store st now rnd) as Hst.
  destruct (getClientId st now rnd) as [cid st1]; simpl in *.
  rewrite Hst.
  destruct (rateLimitStore st !! (cid +:+ ":" +:+ url)) as [e|] eqn:He.
  - intros Hw. apply Z.ltb_lt in Hw. rewrite Hw. reflexivity.
  - intros _. reflexivity.
Qed.

(** [n] further calls inside a running window whose counter stays within
    the ceiling all pass, and the counter has advanced by [n]. *)
Lemma checkRateLimit_seq_in_window calls : ∀ st cid url e,
  hasClient st cid →
  rateLimitStore st !! (cid +:+ ":" +:+ url) = Some e →
  Forall (λ c : Z * string, c.1 - firstRequest e ≤ windowSize) calls →
  count e + Z.of_nat (length calls) ≤ maxRequests →
  let r := checkRateLimit_seq st calls url in
  Forall (λ o, o = Returned tt) r.1
  ∧ length r.1 = length calls
  ∧ hasClient r.2 cid
  ∧ ∃ e', rateLimitStore r.2 !! (cid +:+ ":" +:+ url) = Some e'
        ∧ count e' = count e + Z.of_nat (length calls)
        ∧ firstRequest e' = firstRequest e
        ∧ blocked e' = blocked e.
Proof.
  induction calls as [|[now rnd] rest IH]; intros st cid url e Hcl He Hall Hcnt.
  - simpl. repeat split; try apply Hcl; [constructor|].
    exists e. repeat split; [exact He | lia].
  - apply Forall_cons in Hall as [Hnow Hrest]. simpl in Hnow.
    simpl length in Hcnt.
    cbn [checkRateLimit_seq].
    rewrite (checkRateLimit_in_window st cid url e now rnd Hcl He Hnow).
    replace (maxRequests <? count e + 1) with false
      by (symmetry; apply Z.ltb_ge; lia).
    set (e1 := {| count := count e + 1; firstRequest := firstRequest e;
                  lastRequest := now; blocked := blocked e |}).
    set (st1 := set_rateLimitStore st _).
    assert (He1 : rateLimitStore st1 !! (cid +:+ ":" +:+ url) = Some e1)
      by apply lookup_insert_eq.
    specialize (IH st1 cid url e1 (hasClient_set _ _ _ Hcl) He1).
    simpl in IH. specialize (IH Hrest ltac:(lia)).
    destruct (checkRateLimit_seq st1 rest url) as [os st2]; simpl in *.
    destruct IH as (Hos & Hlen & Hcl2 & e' & He' & Hc' & Hf' & Hb').
    repeat split; try apply Hcl2.
    + constructor; [reflexivity | exact Hos].
    + lia.
    + exists e'. repeat split; [exact He' | lia | exact Hf' | exact Hb'].
Qed.


End RateLimiterFacts.

(** ** Closed instances for the rate limiter *)

Module RateLimiterExamples.
Import RateLimiter RateLimiterFacts.

Example first_call_creates_entry :
  let r := checkRateLimit emptyState 5 "ab12" "/api/x" in
  r.1 = Returned tt
  ∧ rateLimitStore r.2 !! "client_5_ab12:/api/x"
    = Some {| count := 1; firstRequest := 5; lastRequest := 5; blocked := false |}.
Proof. vm_compute. split; reflexivity. Qed.

Example call_101_is_refused :
  last (checkRateLimit_seq emptyState (replicate 101 (5, "ab12")) "/api/x").1
  = Some (Thrown "Rate limit exceeded for /api/x").
Proof. vm_compute. reflexivity. Qed.

(** At exactly [windowSize] after the window start the window is still
    the old one: the counter goes on. *)
Example no_reset_at_window_edge :
  let st := (checkRateLimit emptyState 0 "ab12" "/api/x").2 in
  rateLimitStore (checkRateLimit st 60000 "zz" "/api/x").2 !! "client_0_ab12:/api/x"
  = Some {| count := 2; firstRequest := 0; lastRequest := 60000; blocked := false |}.
Proof. vm_compute. reflexivity. Qed.


End RateLimiterExamples.

(** * Properties of SecurityMonitor.updateMetrics *)

Module MonitorFacts.
Import Monitor.

Lemma countSeverity_pos s l :
  0 < countSeverity s l ↔ ∃ a, a ∈ l ∧ severity a = s.
Proof.
  unfold countSeverity. split.
  - intros Hpos.
    destruct (filter (λ a, severity a = s) l) as [|a rest] eqn:Hf; [simpl in Hpos; lia|].
    assert (Ha : a ∈ filter (λ a, severity a = s) l) by (rewrite Hf; left).
    apply list_elem_of_filter in Ha as [Hs Hin]. eauto.
  - intros (a & Hin & Hs).
    assert (Ha : a ∈ filter (λ a, severity a = s) l)
      by (apply list_elem_of_filter; split; assumption).
    destruct (filter (λ a, severity a = s) l); [inversion Ha | simpl; lia].
Qed.


End MonitorFacts.

(** ** Closed instances for SecurityMonitor *)

Module MonitorExamples.
Import Monitor MonitorFacts.

Example level_critical_beats_count :
  computedThreatLevel (sampleMonitor [sampleAlert Low; sampleAlert Critical]) 9 noStats
  = Some Critical.
Proof. reflexivity. Qed.

Example level_two_high_is_low :
  computedThreatLevel (sampleMonitor [sampleAlert High; sampleAlert High]) 9 noStats
  = Some Low.
Proof. reflexivity. Qed.

Example level_three_high_is_high :
  computedThreatLevel (sampleMonitor (replicate 3 (sampleAlert High))) 9 noStats
  = Some High.
Proof. reflexivity. Qed.

Example level_ten_alerts_is_low :
  computedThreatLevel (sampleMonitor (replicate 10 (sampleAlert Medium))) 9 noStats
  = Some Low.
Proof. reflexivity. Qed.

Example level_eleven_alerts_is_medium :
  computedThreatLevel (sampleMonitor (replicate 11 (sampleAlert Medium))) 9 noStats
  = Some Medium.
Proof. reflexivity. Qed.

Example metrics_count_by_type :
  (eventsByType <$> metrics (updateMetrics (sampleMonitor (replicate 3 (sampleAlert High)))
                               9 noStats))
  = Some {[ "devtools_detected" := 3 ]}.
Proof. vm_compute. reflexivity. Qed.


End MonitorExamples.

(** * Properties of DevToolsDetector.runDetection *)

Module DevToolsFacts.
Import DevTools.

Lemma better_cases best current :
  (better best current = best ∨ better best current = current)
  ∧ (confidence best <= confidence (better best current))%Q
  ∧ (confidence current <= confidence (better best current))%Q.
Proof.
  unfold better, Qltb.
  destruct (Qle_bool (confidence current) (confidence best)) eqn:Hle; simpl.
  - apply Qle_bool_iff in Hle. repeat split; [left; reflexivity | apply Qle_refl | exact Hle].
  - assert (Hlt : (confidence best < confidence current)%Q).
    { apply Qnot_le_lt. intros H. apply Qle_bool_iff in H. congruence. }
    repeat split; [right; reflexivity | apply Qlt_le_weak; exact Hlt | apply Qle_refl].
Qed.

(** The reduction returns an element of the array whose confidence bounds
    every other one. *)
Lemma foldl_better_max rest : ∀ x,
  foldl better x rest ∈ x :: rest
  ∧ ∀ q, q ∈ x :: rest → (confidence q <= confidence (foldl better x rest))%Q.
Proof.
  induction rest as [|y rest IH]; intros x; simpl.
  - split; [left|]. intros q Hq. apply list_elem_of_singleton in Hq as ->. apply Qle_refl.
  - destruct (IH (better x y)) as [Hin Hmax].
    destruct (better_cases x y) as (Hsel & Hx & Hy).
    split.
    + apply elem_of_cons in Hin as [Heq|Hin].
      * rewrite Heq. destruct Hsel as [->| ->]; [left | right; left].
      * right; right; exact Hin.
    + intros q Hq.
      assert (Hb : (confidence (better x y) <= confidence (foldl better (better x y) rest))%Q)
        by (apply Hmax; left).
      apply elem_of_cons in Hq as [->|Hq]; [eapply Qle_trans; eassumption|].
      apply elem_of_cons in Hq as [->|Hq]; [eapply Qle_trans; eassumption|].
      apply Hmax. right; exact Hq.
Qed.

Lemma reduce1_better_max l best :
  reduce1 better l = Some best →
  best ∈ l ∧ ∀ q, q ∈ l → (confidence q <= confidence best)%Q.
Proof.
  destruct l as [|x rest]; simpl; [discriminate|].
  intros [= <-]. apply foldl_better_max.
Qed.

Lemma callbackCalls_storeHistory d results :
  callbackCalls (storeHistory d results) = callbackCalls d.
Proof. reflexivity. Qed.

Lemma handleDetection_calls d detection cb :
  onDetection (config d) = Some cb →
  callbackCalls (handleDetection d detection).2
  = callbackCalls d ++ [(method detection, confidence detection)].
Proof.
  intros Hcb. unfold handleDetection. rewrite Hcb.
  destruct (cb _ _); [destruct (blockOnDetection _)|]; reflexivity.
Qed.

Lemma handleDetection_unregistered d detection :
  onDetection (config d) = None →
  callbackCalls (handleDetection d detection).2 = callbackCalls d.
Proof.
  intros Hcb. unfold handleDetection. rewrite Hcb.
  destruct (blockOnDetection _); reflexivity.
Qed.

Section Tick.

Variable timingBasedDetection : Z → outcome DetectionResult.
Variable resizeBasedDetection : Z → outcome DetectionResult.
Variable consoleBasedDetection : Z → outcome DetectionResult.
Variable debuggerBasedDetection : Z → outcome DetectionResult.

Local Notation run :=
  (runDetection timingBasedDetection resizeBasedDetection
                consoleBasedDetection debuggerBasedDetection).
Local Notation high :=
  (highConfidenceDetections timingBasedDetection resizeBasedDetection
                            consoleBasedDetection debuggerBasedDetection).

(** A tick on which at least one probe qualifies calls the registered
    handler once, with the first result of greatest confidence. *)
Lemma tick_with_detection d now cb :
  onDetection (config d) = Some cb →
  high (config d) now ≠ [] →
  ∃ best,
    best ∈ high (config d) now
    ∧ (∀ q, q ∈ high (config d) now → (confidence q <= confidence best)%Q)
    ∧ lastDetection (run d now).2 = Some best
    ∧ callbackCalls (run d now).2
      = callbackCalls d ++ [(method best, confidence best)].
Proof.
  intros Hcb Hne. unfold runDetection.
  fold (high (config d) now).
  destruct (reduce1 better (high (config d) now)) as [best|] eqn:Hred.
  - exists best. destruct (reduce1_better_max _ _ Hred) as [Hin Hmax].
    split; [exact Hin|]. split; [exact Hmax|].
    pose proof (handleDetection_calls d best cb Hcb) as Hcalls.
    assert (Hlast : lastDetection (handleDetection d best).2 = Some best).
    { unfold handleDetection. rewrite Hcb.
      destruct (cb _ _); [destruct (blockOnDetection _)|]; reflexivity. }
    destruct (handleDetection d best) as [[u|msg] d1]; simpl in *; auto.
  - destruct (high (config d) now); [contradiction | discriminate].
Qed.

(** A tick on which no probe qualifies calls no handler. *)
Lemma tick_without_detection d now :
  high (config d) now = [] →
  callbackCalls (run d now).2 = callbackCalls d.
Proof.
  intros Hnone. unfold runDetection. fold (high (config d) now).
  rewrite Hnone. reflexivity.
Qed.

(** The filter of [runDetection], spelled out. *)
Lemma qualifies_spec cfg r :
  qualifies cfg r = true
  ↔ detected r = true ∧ (confidenceThreshold cfg <= confidence r)%Q.
Proof.
  unfold qualifies. rewrite andb_true_iff, Qle_bool_iff. reflexivity.
Qed.

Lemma high_spec cfg now r :
  r ∈ high cfg now
  ↔ r ∈ collectResults timingBasedDetection resizeBasedDetection
          consoleBasedDetection debuggerBasedDetection (detectionMethods cfg) now
    ∧ detected r = true
    ∧ (confidenceThreshold cfg <= confidence r)%Q.
Proof.
  unfold highConfidenceDetections. rewrite list_elem_of_filter, qualifies_spec. tauto.
Qed.


End Tick.

End DevToolsFacts.

(** ** Closed instances for DevToolsDetector *)

Module DevToolsExamples.
Import DevTools DevToolsFacts.

Example sample_collect :
  method <$> collectResults sampleTiming sampleResize sampleConsole sampleDebugger
               ["timing"; "resize"; "unknown"; "console"; "debugger"] 4
  = ["timing"; "resize"; "console"].
Proof. reflexivity. Qed.

Example sample_tick_calls_once :
  callbackCalls
    (runDetection sampleTiming sampleResize sampleConsole sampleDebugger
       (newDetector sampleConfig) 4).2
  = [("resize", 9 # 10)].
Proof. reflexivity. Qed.

(** A result that is not detected never reaches the handler, however
    high its confidence: of timing (0.85), resize (0.9) and an undetected
    console result (0.95), the handler gets resize. *)
Example undetected_result_is_ignored :
  callbackCalls
    (runDetection sampleTiming sampleResize sampleQuietConsole sampleDebugger
       (newDetector sampleConfig) 4).2
  = [("resize", 9 # 10)].
Proof. reflexivity. Qed.

(** A confidence equal to the threshold qualifies. *)
Example threshold_itself_qualifies :
  callbackCalls
    (runDetection sampleTiming sampleDebugger sampleConsole sampleDebugger
       (newDetector boundaryConfig) 4).2
  = [("timing", 85 # 100)].
Proof. reflexivity. Qed.


End DevToolsExamples.

(** * Properties of IntegrityVerifier.performIntegrityCheck *)

Module IntegrityFacts.
Import Integrity.

Section Facts.

Variable digest : HashAlgorithm → string → outcome string.
Variable onTamperDetected : TamperEvent → outcome unit.

Local Notation verifyElement := (verifyElement digest onTamperDetected).
Local Notation verifyLoop := (verifyLoop digest onTamperDetected).
Local Notation handleIntegrityFailure := (handleIntegrityFailure onTamperDetected).

Lemma config_handleIntegrityFailure v now i e a :
  config (handleIntegrityFailure v now i e a).2 = config v.
Proof.
  unfold Integrity.handleIntegrityFailure.
  destruct (onTamperDetected _); [destruct (_ <=? _)|]; reflexivity.
Qed.

Lemma config_verifyElement v now element :
  config (verifyElement v now element).2 = config v.
Proof.
  unfold Integrity.verifyElement.
  destruct (generateHash _ _ _ _) as [h|msg]; [|reflexivity].
  destruct (buildTimeHashes v !! id element) as [expected|]; [|reflexivity].
  case_bool_decide; [reflexivity|].
  case_bool_decide; [reflexivity|].
  match goal with
  | |- context [handleIntegrityFailure ?v1 ?n ?i ?e ?a] =>
      pose proof (config_handleIntegrityFailure v1 n i e a) as Hc;
      destruct (handleIntegrityFailure v1 n i e a) as [[u|m] v2]
  end; exact Hc.
Qed.

Lemma config_verifyLoop elements : ∀ v now acc,
  config (verifyLoop v now elements acc).2 = config v.
Proof.
  induction elements as [|e rest IH]; intros v now acc; simpl; [reflexivity|].
  pose proof (config_verifyElement v now e) as Hc.
  destruct (verifyElement v now e) as [[ok|msg] v1]; simpl in *; [|exact Hc].
  rewrite IH. exact Hc.
Qed.

Lemma verifyLoop_app pre : ∀ v now rest acc,
  verifyLoop v now (pre ++ rest) acc
  = match verifyLoop v now pre acc with
    | (Returned ok, v1) => verifyLoop v1 now rest ok
    | (Thrown msg, v1) => (Thrown msg, v1)
    end.
Proof.
  induction pre as [|e pre IH]; intros v now rest acc; simpl; [reflexivity|].
  destruct (verifyElement v now e) as [[ok|msg] v1]; [apply IH | reflexivity].
Qed.

(** An element whose digest cannot be computed: [verifyElement] throws
    and writes nothing. *)
Lemma verifyElement_digest_fails v now element msg :
  generateHash digest (config v) (content element) (id element) = Thrown msg →
  verifyElement v now element = (Thrown msg, v).
Proof. intros H. unfold Integrity.verifyElement. rewrite H. reflexivity. Qed.

(** C7 (amended): [performIntegrityCheck] always returns a boolean, never
    a throw.  When the digest computation fails for an element, the pass
    ends at that element and returns [false]: the verifier is left as the
    elements before it left it (with [isVerifying] cleared), so neither the
    failing element nor any later one gets a check record, a baseline entry
    or a tamper event in this pass. *)
Theorem integrity_check_catches_and_stops (v : Verifier) (now : Z) :
  (∀ elements, ∃ b,
     (performIntegrityCheck digest onTamperDetected v now elements).1 = Returned b)
  ∧ ∀ pre e post ok v1 msg,
      isVerifying v = false →
      Integrity.verifyLoop digest onTamperDetected
        (set_isVerifying v true) now pre true = (Returned ok, v1) →
      generateHash digest (config v) (content e) (id e) = Thrown msg →
      performIntegrityCheck digest onTamperDetected v now (pre ++ e :: post)
      = (Returned false, set_isVerifying v1 false).
Proof.
  split.
  - intros elements. unfold performIntegrityCheck.
    destruct (isVerifying v); [eexists; reflexivity|].
    destruct (verifyLoop _ _ _ _) as [[ok|msg] v1]; eexists; reflexivity.
  - intros pre e post ok v1 msg Hidle Hpre Hfail.
    unfold performIntegrityCheck. rewrite Hidle.
    rewrite verifyLoop_app, Hpre. simpl.
    assert (Hcfg : config v1 = config v).
    { pose proof (config_verifyLoop pre (set_isVerifying v true) now true) as Hc.
      rewrite Hpre in Hc. exact Hc. }
    rewrite (verifyElement_digest_fails v1 now e msg) by (rewrite Hcfg; exact Hfail).
    reflexivity.
Qed.

End Facts.

End IntegrityFacts.

(** ** Closed instances for IntegrityVerifier *)

Module IntegrityExamples.
Import Integrity IntegrityFacts.

Example mismatch_is_recorded :
  let r := performIntegrityCheck sampleDigest sampleHandler sampleVerifier 7
             [elemA; elemC] in
  r.1 = Returned false
  ∧ checks r.2 !! "c"
    = Some {| hash := "tamperedc"; timestamp := 7; verified := false;
              failureCount := 1 |}
  ∧ (location <$> tamperEvents r.2) = ["c"].
Proof. vm_compute. repeat split. Qed.

(** C7, as stated, fails: the digest of element "b" cannot be computed.
    The pass returns [false], but "b" has no check record at all (so none
    with [verified = false]), and the element "c" after it, which would
    have been flagged, is not checked: no record, no tamper event. *)
Lemma digest_failure_skips_remaining_elements :
  let r := performIntegrityCheck sampleDigest sampleHandler sampleVerifier 7
             [elemA; elemB; elemC] in
  generateHash sampleDigest (config sampleVerifier) (content elemB) (id elemB)
  = Thrown "digest failed"
  ∧ (verifyElement sampleDigest sampleHandler sampleVerifier 7 elemC).1 = Returned false
  ∧ r.1 = Returned false
  ∧ (verified <$> checks r.2 !! "a") = Some true
  ∧ checks r.2 !! "b" = None
  ∧ checks r.2 !! "c" = None
  ∧ tamperEvents r.2 = [].
Proof. vm_compute. repeat split. Qed.

(** The second part of [integrity_check_catches_and_stops] on the sample
    verifier: "a" verifies, the digest of "b" fails, "c" is not reached. *)
Lemma integrity_check_catches_and_stops_witness :
  let v1 := (verifyLoop sampleDigest sampleHandler
               (set_isVerifying sampleVerifier true) 7 [elemA] true).2 in
  isVerifying sampleVerifier = false
  ∧ verifyLoop sampleDigest sampleHandler
      (set_isVerifying sampleVerifier true) 7 [elemA] true = (Returned true, v1)
  ∧ generateHash sampleDigest (config sampleVerifier) (content elemB) (id elemB)
    = Thrown "digest failed"
  ∧ performIntegrityCheck sampleDigest sampleHandler sampleVerifier 7
      ([elemA] ++ elemB :: [elemC])
    = (Returned false, set_isVerifying v1 false).
Proof.
  cbv zeta.
  assert (H1 : isVerifying sampleVerifier = false) by reflexivity.
  assert (H2 : verifyLoop sampleDigest sampleHandler
                 (set_isVerifying sampleVerifier true) 7 [elemA] true
               = (Returned true,
                  (verifyLoop sampleDigest sampleHandler
                     (set_isVerifying sampleVerifier true) 7 [elemA] true).2))
    by (vm_compute; reflexivity).
  assert (H3 : generateHash sampleDigest (config sampleVerifier)
                 (content elemB) (id elemB) = Thrown "digest failed")
    by reflexivity.
  split; [exact H1|]. split; [exact H2|]. split; [exact H3|].
  exact (proj2 (integrity_check_catches_and_stops sampleDigest sampleHandler
                  sampleVerifier 7)
           [elemA] elemB [elemC] true _ "digest failed" H1 H2 H3).
Defined.

End IntegrityExamples.

(** * Properties of SecurityEventLogger *)

Module EventLoggerFacts.
Import EventLogger.

Lemma keepsRetryState_refl a : keepsRetryState a a.
Proof.
  unfold keepsRetryState. do 7 (split; [reflexivity|]).
  split; [reflexivity|]. exists []. symmetry. apply app_nil_r.
Qed.

Lemma keepsRetryState_trans a b c :
  keepsRetryState a b → keepsRetryState b c → keepsRetryState a c.
Proof.
  intros (H1 & H2 & H3 & H4 & H5 & H6 & H7 & H8 & l1 & H9)
         (K1 & K2 & K3 & K4 & K5 & K6 & K7 & K8 & l2 & K9).
  unfold keepsRetryState. do 7 (split; [congruence|]). split.
  - intros He. rewrite K8, H8; [reflexivity | exact He | rewrite H1; exact He].
  - exists (l1 ++ l2). rewrite K9, H9, app_assoc. reflexivity.
Qed.

Lemma keepsRetryState_push st e :
  keepsRetryState st (next_draw (set_eventQueue st (eventQueue st ++ [e]))).
Proof.
  unfold keepsRetryState; simpl. do 7 (split; [reflexivity|]).
  split; [reflexivity|]. exists []. symmetry. apply app_nil_r.
Qed.

Section Facts.

Variable random : nat → string.
Variable navigatorUserAgent : string.

Local Notation flush := (flush random).
Local Notation logEvent := (logEvent random navigatorUserAgent).
Local Notation logEvents := (logEvents random navigatorUserAgent).
Local Notation consoleCall := (consoleCall random navigatorUserAgent).
Local Notation flushSettled := (flushSettled random navigatorUserAgent).
Local Notation retrySettled := (retrySettled random navigatorUserAgent).

Lemma keepsRetryState_flush st now : keepsRetryState st (flush st now).
Proof.
  unfold EventLogger.flush.
  destruct (bool_decide (eventQueue st = []) || negb (isOnline st));
    [apply keepsRetryState_refl|].
  unfold sendBatch; simpl.
  destruct (hasEndpoint (config st)) eqn:He; simpl.
  - unfold keepsRetryState; simpl. do 7 (split; [reflexivity|]).
    split; [reflexivity | eexists; reflexivity].
  - unfold keepsRetryState; simpl. do 7 (split; [reflexivity|]).
    split; [rewrite He; discriminate | eexists; reflexivity].
Qed.

Lemma keepsRetryState_enqueue st now type details severity source :
  keepsRetryState st (enqueue random navigatorUserAgent st now type details severity source).
Proof.
  unfold enqueue.
  set (st1 := next_draw _).
  set (st2 := if bool_decide (severity = Critical) then flush st1 now else st1).
  assert (H1 : keepsRetryState st st1) by apply keepsRetryState_push.
  assert (H2 : keepsRetryState st1 st2)
    by (subst st2; case_bool_decide;
        [apply keepsRetryState_flush | apply keepsRetryState_refl]).
  pose proof (keepsRetryState_trans _ _ _ H1 H2) as H12.
  destruct (_ <=? _); [|exact H12].
  exact (keepsRetryState_trans _ _ _ H12 (keepsRetryState_flush st2 now)).
Qed.

Lemma keepsRetryState_logEvent fuel : ∀ st now type details severity source,
  keepsRetryState st (logEvent fuel st now type details severity source).2.
Proof.
  induction fuel as [|fuel IH]; intros st now type details severity source; simpl.
  - apply keepsRetryState_refl.
  - destruct (enabled (config st)); simpl; [|apply keepsRetryState_refl].
    pose proof (keepsRetryState_enqueue st now type details severity source) as H13.
    set (st3 := enqueue _ _ _ _ _ _ _ _) in *.
    destruct (consoleHooked st3); [|exact H13].
    specialize (IH st3 now "console_access" (consoleDetails "log") Low "ConsoleMonitor").
    destruct (logEvent fuel st3 now _ _ _ _) as [[i|msg] st4]; simpl in *;
      exact (keepsRetryState_trans _ _ _ H13 IH).
Qed.

(** One level of the chain, while the wrappers are installed. *)
Lemma logEvent_hooked_state fuel st now type details severity source :
  enabled (config st) = true →
  consoleHooked st = true →
  (logEvent (S fuel) st now type details severity source).2
  = (logEvent fuel (enqueue random navigatorUserAgent st now type details severity source)
       now "console_access" (consoleDetails "log") Low "ConsoleMonitor").2.
Proof.
  intros Hen Hhook. simpl. rewrite Hen; simpl.
  destruct (keepsRetryState_enqueue st now type details severity source) as (_ & Hh & _).
  rewrite Hh, Hhook.
  destruct (logEvent fuel _ _ _ _ _ _) as [[i|msg] st4]; reflexivity.
Qed.

(** While the console wrappers are installed and logging is enabled, a
    [logEvent] call does not return: whatever the stack depth available,
    the chain [logEvent → console.log → logEvent → ...] uses it up. *)
Lemma logEvent_hooked_overflows fuel : ∀ st now type details severity source,
  enabled (config st) = true →
  consoleHooked st = true →
  (logEvent fuel st now type details severity source).1 = Thrown stackOverflow.
Proof.
  induction fuel as [|fuel IH]; intros st now type details severity source Hen Hhook;
    simpl; [reflexivity|].
  rewrite Hen; simpl.
  destruct (keepsRetryState_enqueue st now type details severity source)
    as (Hc & Hh & _).
  set (st3 := enqueue _ _ _ _ _ _ _ _) in *.
  rewrite Hh, Hhook.
  specialize (IH st3 now "console_access" (consoleDetails "log") Low "ConsoleMonitor").
  rewrite Hc, Hh in IH. specialize (IH Hen Hhook).
  destruct (logEvent fuel st3 now _ _ _ _) as [[i|msg] st4]; simpl in *;
    [discriminate | exact IH].
Qed.

Lemma consoleCall_hooked fuel st now method severity :
  enabled (config st) = true →
  consoleHooked st = true →
  (consoleCall fuel st now method severity).1 = Thrown stackOverflow
  ∧ keepsRetryState st (consoleCall fuel st now method severity).2.
Proof.
  intros Hen Hhook. unfold EventLogger.consoleCall. rewrite Hhook.
  pose proof (logEvent_hooked_overflows fuel st now "console_access"
                (consoleDetails method) severity "ConsoleMonitor" Hen Hhook) as Hov.
  pose proof (keepsRetryState_logEvent fuel st now "console_access"
                (consoleDetails method) severity "ConsoleMonitor") as Hk.
  destruct (logEvent fuel st now _ _ _ _) as [[i|msg] st1]; cbn [fst snd] in *;
    [discriminate|]. injection Hov as ->. split; [reflexivity | exact Hk].
Qed.

(** After a failed transmission, with the wrappers installed: the
    [console.error] of the [catch] block throws, and the batch is neither
    pushed on the retry queue nor stored, nor is any retry scheduled. *)
Lemma flushSettled_failure_hooked fuel st now batch :
  enabled (config st) = true →
  consoleHooked st = true →
  hasEndpoint (config st) = true →
  let r := flushSettled fuel st now batch false in
  r.1 = Thrown stackOverflow
  ∧ retryQueue r.2 = retryQueue st
  ∧ retryTimers r.2 = retryTimers st
  ∧ localStorage r.2 = localStorage st.
Proof.
  intros Hen Hhook Hep. unfold EventLogger.flushSettled.
  destruct (consoleCall_hooked fuel st now "error" Medium Hen Hhook) as [Hthrow Hk].
  destruct (consoleCall fuel st now "error" Medium) as [[u|msg] st1]; simpl in *;
    [discriminate|].
  destruct Hk as (_ & _ & _ & _ & _ & Hq & Ht & Hs & _).
  repeat split; auto.
Qed.

(** With plain console output, one [logEvent] call of non-critical
    severity on an enabled, online logger. *)
Lemma logEvent_plain fuel st now type details severity source :
  enabled (config st) = true →
  consoleHooked st = false →
  severity ≠ Critical →
  let event := makeEvent random navigatorUserAgent st now type details severity source in
  let st1 := next_draw (set_eventQueue st (eventQueue st ++ [event])) in
  logEvent (S fuel) st now type details severity source
  = (Returned (id event),
     if batchSize (config st) <=? Z.of_nat (length (eventQueue st ++ [event]))
     then flush st1 now else st1).
Proof.
  intros Hen Hhook Hsev. simpl. rewrite Hen; simpl.
  destruct (keepsRetryState_enqueue st now type details severity source) as (_ & Hh & _).
  rewrite Hh, Hhook. unfold enqueue.
  rewrite bool_decide_eq_false_2 by exact Hsev. reflexivity.
Qed.

(** The batching logic by itself (console output plain): [calls] fill
    the queue [q] up to exactly [batchSize]; the last call, and only it,
    flushes, building one batch that holds [q] followed by the new events
    in call order, and the queue is left empty. *)
Lemma logEvents_fill_batch calls : ∀ fuel st,
  enabled (config st) = true →
  consoleHooked st = false →
  isOnline st = true →
  calls ≠ [] →
  Forall (λ c, callSeverity c ≠ Critical) calls →
  batchSize (config st) = Z.of_nat (length (eventQueue st) + length calls) →
  let r := logEvents (S fuel) st calls in
  ∃ ids b,
    r.1 = Returned ids
    ∧ length ids = length calls
    ∧ flushed r.2 = flushed st ++ [b]
    ∧ events b
      = eventQueue st
        ++ eventsOf random navigatorUserAgent (loggerSessionId st)
             (loggerFingerprint st) (draws st) calls
    ∧ eventQueue r.2 = []
    ∧ keepsRetryState st r.2.
Proof.
  induction calls as [|[[[[now type] details] severity] source] rest IH];
    intros fuel st Hen Hhook Hon Hne Hsev Hsize; [contradiction|].
  apply Forall_cons in Hsev as [Hs Hrest]. unfold callSeverity in Hs; simpl in Hs.
  cbn [EventLogger.logEvents].
  rewrite (logEvent_plain fuel st now type details severity source Hen Hhook Hs).
  set (event := makeEvent random navigatorUserAgent st now type details severity source).
  set (st1 := next_draw (set_eventQueue st (eventQueue st ++ [event]))).
  rewrite length_app. change (length [event]) with 1%nat.
  destruct rest as [|c rest']; cbn [length] in Hsize.
  - (* the queue is full: flush *)
    replace (batchSize (config st) <=? Z.of_nat (length (eventQueue st) + 1)) with true
      by (symmetry; apply Z.leb_le; lia).
    cbn [EventLogger.logEvents fst snd].
    unfold EventLogger.flush.
    rewrite bool_decide_eq_false_2
      by (simpl; intros Hnil; apply app_eq_nil in Hnil as [_ Hnil]; discriminate).
    simpl isOnline. rewrite Hon. simpl.
    eexists; eexists. split; [reflexivity|]. split; [reflexivity|].
    pose proof (keepsRetryState_flush st1 now) as Hk.
    unfold EventLogger.flush in Hk.
    rewrite bool_decide_eq_false_2 in Hk
      by (simpl; intros Hnil; apply app_eq_nil in Hnil as [_ Hnil]; discriminate).
    simpl isOnline in Hk. rewrite Hon in Hk. simpl in Hk.
    unfold sendBatch in *. simpl in *.
    destruct (hasEndpoint (config st)); simpl in *.
    + split; [reflexivity|]. split; [reflexivity|]. split; [reflexivity|].
      eapply keepsRetryState_trans; [apply keepsRetryState_push | exact Hk].
    + split; [reflexivity|]. split; [reflexivity|]. split; [reflexivity|].
      eapply keepsRetryState_trans; [apply keepsRetryState_push | exact Hk].
  - (* room left: no flush *)
    replace (batchSize (config st) <=? Z.of_nat (length (eventQueue st) + 1)) with false
      by (symmetry; apply Z.leb_gt; lia).
    specialize (IH fuel st1 Hen Hhook Hon ltac:(discriminate) Hrest).
    cbn zeta in IH.
    assert (Hsize1 : batchSize (config st1)
                     = Z.of_nat (length (eventQueue st1) + length (c :: rest')))
      by (simpl; rewrite length_app; simpl; lia).
    specialize (IH Hsize1).
    destruct IH as (ids & b & Hr & Hlen & Hfl & Hev & Hq & Hk).
    cbn [fst snd]. 
    destruct (logEvents (S fuel) st1 (c :: rest')) as [[ids'|msg] st2]; simpl in *;
      [|discriminate].
    injection Hr as ->.
    exists (id event :: ids), b. split; [reflexivity|]. split; [simpl; lia|].
    split; [exact Hfl|]. split; [rewrite Hev, <- app_assoc; reflexivity|].
    split; [exact Hq|].
    eapply keepsRetryState_trans; [apply keepsRetryState_push | exact Hk].
Qed.

(** *** The retry path with plain console output *)

Lemma consoleCall_plain fuel st now method severity :
  consoleHooked st = false →
  consoleCall fuel st now method severity = (Returned tt, st).
Proof. intros Hhook. unfold EventLogger.consoleCall. rewrite Hhook. reflexivity. Qed.

(** A failed first transmission queues the batch and arms one timer. *)
Lemma flushSettled_failure_plain fuel st now batch :
  consoleHooked st = false →
  flushSettled fuel st now batch false
  = (Returned tt, scheduleRetry (set_retryQueue st (retryQueue st ++ [batch]))).
Proof.
  intros Hhook. unfold EventLogger.flushSettled.
  rewrite (consoleCall_plain fuel st now "error" Medium Hhook). reflexivity.
Qed.

(** A failed retry of a batch not yet marked: it is marked and queued
    once more.  [maxRetries] plays no part. *)
Lemma retrySettled_failure_first fuel st now batch :
  consoleHooked st = false →
  retriesRemaining batch = true →
  retrySettled fuel st now batch false
  = (Returned tt,
     scheduleRetry (set_retryQueue st (retryQueue st ++ [markRetried batch]))).
Proof.
  intros Hhook Hrem. unfold EventLogger.retrySettled.
  rewrite (consoleCall_plain fuel st now "error" Medium Hhook), Hrem.
  simpl. rewrite length_app. simpl.
  replace (0 <? length (retryQueue st) + 1)%nat with true
    by (symmetry; apply Nat.ltb_lt; lia).
  reflexivity.
Qed.

(** A marked batch has no retries remaining. *)
Lemma retriesRemaining_markRetried batch :
  retriesRemaining (markRetried batch) = false.
Proof.
  unfold retriesRemaining, markRetried; simpl.
  destruct (events batch) as [|first rest]; simpl; [reflexivity|].
  rewrite lookup_insert_eq. reflexivity.
Qed.

(** A failed retry of a marked batch: the batch is not queued again
    and not stored; the logger goes on with the rest of the queue. *)
Lemma retrySettled_failure_second fuel st now batch :
  consoleHooked st = false →
  retrySettled fuel st now (markRetried batch) false
  = (Returned tt, if (0 <? length (retryQueue st))%nat then scheduleRetry st else st).
Proof.
  intros Hhook. unfold EventLogger.retrySettled.
  rewrite (consoleCall_plain fuel st now "error" Medium Hhook).
  rewrite retriesRemaining_markRetried. reflexivity.
Qed.

(** With an endpoint configured, neither the settlement of a flush, nor
    a retry timer, nor the settlement of a retry writes [localStorage]. *)
Lemma retry_path_leaves_localStorage fuel st now batch ok :
  hasEndpoint (config st) = true →
  localStorage (flushSettled fuel st now batch ok).2 = localStorage st
  ∧ localStorage (retryFire st).2 = localStorage st
  ∧ localStorage (retrySettled fuel st now batch ok).2 = localStorage st.
Proof.
  intros Hep.
  assert (Hcc : ∀ method severity,
             localStorage (consoleCall fuel st now method severity).2 = localStorage st
             ∧ retryQueue (consoleCall fuel st now method severity).2 = retryQueue st).
  { intros method severity. unfold EventLogger.consoleCall.
    destruct (consoleHooked st); [|split; reflexivity].
    pose proof (keepsRetryState_logEvent fuel st now "console_access"
                  (consoleDetails method) severity "ConsoleMonitor") as Hk.
    destruct (logEvent fuel st now _ _ _ _) as [[i|msg] st1]; simpl in *;
      destruct Hk as (_ & _ & _ & _ & _ & Hq & _ & Hs & _); auto. }
  split; [|split].
  - unfold EventLogger.flushSettled. destruct ok.
    + apply Hcc.
    + destruct (Hcc "error" Medium) as [Hs _].
      destruct (consoleCall fuel st now "error" Medium) as [[u|msg] st1]; exact Hs.
  - unfold retryFire. simpl.
    destruct (retryQueue st) as [|b rest]; [reflexivity|].
    unfold sendBatch; simpl. rewrite Hep. reflexivity.
  - unfold EventLogger.retrySettled. destruct ok.
    + destruct (Hcc "log" Low) as [Hs _].
      destruct (consoleCall fuel st now "log" Low) as [[u|msg] st1]; simpl in *;
        [|exact Hs].
      destruct (0 <? _)%nat; exact Hs.
    + destruct (Hcc "error" Medium) as [Hs _].
      destruct (consoleCall fuel st now "error" Medium) as [[u|msg] st1]; simpl in *;
        [|exact Hs].
      destruct (retriesRemaining batch); simpl;
        match goal with |- context [if ?c then _ else _] => destruct c end; exact Hs.
Qed.

End Facts.

End EventLoggerFacts.

(** ** Closed instances for SecurityEventLogger *)

Module EventLoggerExamples.
Import EventLogger EventLoggerFacts.

Lemma remoteLogger_fields :
  let st := newLogger remoteConfig "session" "fp" ∅ in
  enabled (config st) = true ∧ consoleHooked st = true
  ∧ hasEndpoint (config st) = true
  ∧ retryQueue st = [] ∧ retryTimers st = 0%nat ∧ localStorage st = ∅.
Proof. vm_compute. repeat split. Qed.

(** With plain console output the batching is as intended: two events
    on a logger with [batchSize = 2] give one batch holding both, in
    order, and an empty queue. *)
Example plain_console_two_events_one_batch :
  let st := set_consoleHooked (newLogger remoteConfig "session" "fp" ∅) false in
  let r := logEvents sampleRandom "UA" 1 st [sampleCall 0; sampleCall 1] in
  r.1 = Returned ["event_0_r0"; "event_1_r1"]
  ∧ ((λ b, id <$> events b) <$> flushed r.2) = [["event_0_r0"; "event_1_r1"]]
  ∧ eventQueue r.2 = [].
Proof. vm_compute. repeat split. Qed.

(** C4 on the logger as its constructor leaves it ([batchSize = 2]): the
    first [logEvent] call already fails to return, at every stack depth,
    and the first batch built holds the caller's event together with a
    [console_access] event logged by the console wrapper. *)
Theorem constructed_logger_logEvent_overflows :
  let st := newLogger remoteConfig "session" "fp" ∅ in
  (∀ fuel now type details severity source,
     (logEvent sampleRandom "UA" fuel st now type details severity source).1
     = Thrown stackOverflow)
  ∧ ∀ fuel,
      ((λ b, type <$> events b)
         <$> head (flushed (logEvent sampleRandom "UA" (3 + fuel) st 0
                              "suspicious_activity" ∅ Medium "test").2))
      = Some ["suspicious_activity"; "console_access"].
Proof.
  cbv zeta. split.
  - intros. apply logEvent_hooked_overflows; reflexivity.
  - intros fuel.
    change (3 + fuel)%nat with (S (S (S fuel))).
    set (st := newLogger remoteConfig "session" "fp" ∅).
    rewrite (logEvent_hooked_state sampleRandom "UA" (S (S fuel)) st) by reflexivity.
    set (s1 := enqueue sampleRandom "UA" st 0 "suspicious_activity" ∅ Medium "test").
    rewrite (logEvent_hooked_state sampleRandom "UA" (S fuel) s1) by reflexivity.
    set (s2 := enqueue sampleRandom "UA" s1 0 "console_access" (consoleDetails "log")
                 Low "ConsoleMonitor").
    destruct (keepsRetryState_logEvent sampleRandom "UA" (S fuel) s2 0 "console_access"
                (consoleDetails "log") Low "ConsoleMonitor")
      as (_ & _ & _ & _ & _ & _ & _ & _ & l & Hl).
    rewrite Hl.
    assert (Hs2 : (λ b, type <$> events b) <$> head (flushed s2)
                  = Some ["suspicious_activity"; "console_access"])
      by (vm_compute; reflexivity).
    destruct (flushed s2) as [|b rest]; [discriminate|]. exact Hs2.
Qed.

(** C3 on a logger with a remote endpoint whose transmissions fail.
    (1) As its constructor leaves it: the [catch] block of [flush] does not
    get past its [console.error] at any stack depth, so the batch is not
    pushed on the retry queue, no retry is scheduled and nothing is written
    to [localStorage]; a logger constructed afterwards on the same page has
    an empty retry queue.
    (2) With console output plain: the batch [b] is queued, retried, marked
    and queued once more, retried again and then dropped, three requests in
    all with [maxRetries = 3] never read; [localStorage] is never written,
    and a logger constructed afterwards has an empty retry queue. *)
Theorem failed_batch_is_lost_not_persisted :
  (∀ fuel1 fuel2 now batch,
     let st := newLogger remoteConfig "session" "fp" ∅ in
     let st1 := (logEvent sampleRandom "UA" fuel1 st 0
                   "suspicious_activity" ∅ Medium "test").2 in
     let r := flushSettled sampleRandom "UA" fuel2 st1 now batch false in
     r.1 = Thrown stackOverflow
     ∧ retryQueue r.2 = []
     ∧ retryTimers r.2 = 0%nat
     ∧ localStorage r.2 = ∅
     ∧ retryQueue (newLogger remoteConfig "session2" "fp" (localStorage r.2)) = [])
  ∧ (let st := set_consoleHooked (newLogger remoteConfig "session" "fp" ∅) false in
     let s1 := (logEvents sampleRandom "UA" 1 st [sampleCall 0; sampleCall 1]).2 in
     ∃ b, head (flushed s1) = Some b ∧
       let s2 := (flushSettled sampleRandom "UA" 1 s1 5 b false).2 in
       let s3 := (retryFire s2).2 in
       let s4 := (retrySettled sampleRandom "UA" 1 s3 6 b false).2 in
       let s5 := (retryFire s4).2 in
       let s6 := (retrySettled sampleRandom "UA" 1 s5 7 (markRetried b) false).2 in
       retryQueue s2 = [b] ∧ retryTimers s2 = 1%nat
       ∧ (retryFire s2).1 = Some b
       ∧ retryQueue s4 = [markRetried b] ∧ retryTimers s4 = 1%nat
       ∧ (retryFire s4).1 = Some (markRetried b)
       ∧ retryQueue s6 = [] ∧ retryTimers s6 = 0%nat
       ∧ length (requests s6) = 3%nat
       ∧ maxRetries (config s6) = 3
       ∧ localStorage s6 = ∅
       ∧ retryQueue (newLogger remoteConfig "session2" "fp" (localStorage s6)) = []).
Proof.
  split.
  - intros fuel1 fuel2 now batch st st1 r.
    destruct (keepsRetryState_logEvent sampleRandom "UA" fuel1 st 0
                "suspicious_activity" ∅ Medium "test")
      as (Hc & Hh & _ & _ & _ & Hq & Ht & Hs & _).
    fold st1 in Hc, Hh, Hq, Ht, Hs.
    destruct (flushSettled_failure_hooked sampleRandom "UA" fuel2 st1 now batch)
      as (Hr1 & Hr2 & Hr3 & Hr4).
    + rewrite Hc. reflexivity.
    + rewrite Hh. reflexivity.
    + rewrite Hc. reflexivity.
    + fold r in Hr1, Hr2, Hr3, Hr4.
      split; [exact Hr1|]. split; [rewrite Hr2, Hq; reflexivity|].
      split; [rewrite Hr3, Ht; reflexivity|].
      assert (Hst : localStorage r.2 = ∅) by (rewrite Hr4, Hs; reflexivity).
      split; [exact Hst|]. rewrite Hst. reflexivity.
  - eexists. split; [vm_compute; reflexivity|]. vm_compute. repeat split.
Qed.

End EventLoggerExamples.

(** * Further properties of AssetProtectionService *)

Module AssetProtectionOpsFacts.
Import AssetProtection AssetProtectionOps.

(** *** Strings *)

Lemma substring_whole (b : string) : String.substring 0 (String.length b) b = b.
Proof. induction b as [|c b IHb]; simpl; [reflexivity|]. rewrite IHb. reflexivity. Qed.

Lemma substring_append_drop (a b : string) :
  String.substring (String.length a) (String.length b) (a +:+ b) = b.
Proof. induction a as [|c a IH]; simpl; [apply substring_whole | exact IH]. Qed.

Lemma length_append (a b : string) :
  String.length (a +:+ b) = (String.length a + String.length b)%nat.
Proof. induction a as [|c a IH]; simpl; [reflexivity|]. rewrite IH. reflexivity. Qed.

Lemma lastIndexOf_from_noDot (s : string) : ∀ i acc,
  noDot s = true → lastIndexOf_from "." s i acc = acc.
Proof.
  induction s as [|c s IH]; intros i acc; simpl; [reflexivity|].
  destruct (Ascii.eqb c "."); simpl; [discriminate|]. apply IH.
Qed.

Lemma lastIndexOf_from_last_dot (base e : string) : ∀ i acc,
  noDot e = true →
  lastIndexOf_from "." (base +:+ String "." e) i acc = i + Z.of_nat (String.length base).
Proof.
  induction base as [|c base IH]; intros i acc He; simpl.
  - rewrite lastIndexOf_from_noDot by exact He. lia.
  - rewrite IH by exact He. lia.
Qed.

Lemma getFileExtension_suffix (base e : string) :
  noDot e = true →
  getFileExtension (base +:+ "." +:+ e) = "." +:+ e.
Proof.
  intros He. unfold getFileExtension, lastIndexOf, substring_from.
  change (base +:+ "." +:+ e) with (base +:+ String "." e).
  rewrite lastIndexOf_from_last_dot by exact He.
  rewrite Z.add_0_l, Z.max_r by lia. rewrite Nat2Z.id.
  rewrite length_append.
  replace (String.length base + String.length (String "." e) - String.length base)%nat
    with (String.length (String "." e)) by lia.
  apply substring_append_drop.
Qed.

Section Facts.

Variable HmacSHA256 : string → string → string.
Variable userAgent : string.

Local Notation validate := (validateSignedUrl HmacSHA256 userAgent).
Local Notation logAccess := (logAccess userAgent).

Lemma length_logAccess svc now tok ok r :
  (length (accessLogs svc) ≤ 1000)%nat →
  (length (accessLogs (logAccess svc now tok ok r)) ≤ 1000)%nat.
Proof.
  intros Hlen. unfold AssetProtection.logAccess, set_accessLogs; simpl.
  destruct (1000 <? _) eqn:Hover.
  - destruct (accessLogs svc) as [|a l]; simpl in *; [discriminate|].
    rewrite length_app. simpl. lia.
  - apply Z.ltb_ge in Hover. lia.
Qed.

Lemma validate_unknown svc now tok sig exp :
  enabled (config svc) = true →
  tokenCache svc !! tok = None →
  validate svc now tok sig exp
  = (None, logAccess svc now tok false (Some "Token not found")).
Proof. intros Hen Hnone. unfold validateSignedUrl. rewrite Hen, Hnone. reflexivity. Qed.

(** X1: after [revokeAllTokens], every validation returns null and the
    grant store stays empty, whatever token, signature and expiry are
    presented; on an enabled service the logged reason is "Token not found". *)
Theorem revoked_tokens_never_validate svc now tok sig exp :
  let r := validateSignedUrl HmacSHA256 userAgent (revokeAllTokens svc) now tok sig exp in
  r.1 = None
  ∧ tokenCache r.2 = ∅
  ∧ (enabled (config svc) = true →
     lastAccess r.2 = Some (false, Some "Token not found")).
Proof.
  cbv zeta. destruct (enabled (config svc)) eqn:Hen.
  - rewrite validate_unknown by (try exact Hen; apply lookup_empty).
    split; [reflexivity|]. split; [reflexivity|]. intros _.
    apply AssetProtectionFacts.lastAccess_logAccess.
  - unfold validateSignedUrl. simpl. rewrite Hen. simpl.
    split; [reflexivity|]. split; [reflexivity|]. discriminate.
Qed.

(** X2: a validation call whose [expires] argument lies before the clock
    removes the stored grant, whatever signature is presented and even when
    the grant itself has not expired; the next validation of that token,
    with the right signature and expiry, finds no token. *)
Theorem stale_expiry_argument_evicts_grant svc now tok sig exp td :
  enabled (config svc) = true →
  tokenCache svc !! tok = Some td →
  exp < now →
  let r := validateSignedUrl HmacSHA256 userAgent svc now tok sig exp in
  r.1 = None
  ∧ lastAccess r.2 = Some (false, Some "Token expired")
  ∧ tokenCache r.2 = delete tok (tokenCache svc)
  ∧ ∀ now2,
      let r2 := validateSignedUrl HmacSHA256 userAgent r.2 now2 tok
                  (generateSignature HmacSHA256 (config svc) tok (td_expires td)
                     (originalPath td))
                  (td_expires td) in
      r2.1 = None ∧ lastAccess r2.2 = Some (false, Some "Token not found").
Proof.
  intros Hen Hst Hexp. cbv zeta.
  rewrite (AssetProtectionFacts.validate_expired HmacSHA256 userAgent
             svc now tok sig exp td Hen Hst) by (left; exact Hexp).
  cbn [fst snd]. split; [reflexivity|].
  split; [apply AssetProtectionFacts.lastAccess_logAccess|].
  split; [reflexivity|]. intros now2.
  rewrite validate_unknown; [|exact Hen|apply lookup_delete_eq].
  split; [reflexivity|]. apply AssetProtectionFacts.lastAccess_logAccess.
Qed.

(** X4: the access log never grows beyond 1000 entries: if it holds at
    most 1000 before a [validateSignedUrl] or [generateSignedUrl] call, it
    holds at most 1000 after it. *)
Theorem access_log_bounded svc now tok sig exp rnd path :
  (length (accessLogs svc) ≤ 1000)%nat →
  (length (accessLogs (validateSignedUrl HmacSHA256 userAgent svc now tok sig exp).2)
   ≤ 1000)%nat
  ∧ (length (accessLogs (generateSignedUrl HmacSHA256 svc now rnd path).2) ≤ 1000)%nat.
Proof.
  intros Hlen. split.
  - unfold validateSignedUrl.
    destruct (enabled (config svc)); simpl; [|exact Hlen].
    destruct (tokenCache svc !! tok) as [td|]; [|apply length_logAccess; exact Hlen].
    destruct (_ || _); [apply length_logAccess; exact Hlen|].
    case_bool_decide; apply length_logAccess; exact Hlen.
  - unfold generateSignedUrl.
    destruct (enabled (config svc)); simpl; [|exact Hlen].
    case_bool_decide; simpl; exact Hlen.
Qed.

(** X5: for a path [base.ext] whose [ext] contains no dot, the extension
    checked is [.ext], so on an enabled service [generateSignedUrl] issues
    a grant exactly when [.ext] is on the allow-list (and throws otherwise,
    leaving the service unchanged). *)
Theorem issuance_decided_by_last_extension svc now rnd base ext :
  enabled (config svc) = true →
  noDot ext = true →
  let r := generateSignedUrl HmacSHA256 svc now rnd (base +:+ "." +:+ ext) in
  getFileExtension (base +:+ "." +:+ ext) = "." +:+ ext
  ∧ issued r = bool_decide ("." +:+ ext ∈ allowedExtensions (config svc))
  ∧ (issued r = false → r.2 = svc).
Proof.
  intros Hen Hext. cbv zeta.
  split; [apply getFileExtension_suffix; exact Hext|].
  unfold generateSignedUrl, issued. rewrite Hen; simpl.
  rewrite (getFileExtension_suffix base ext Hext).
  case_bool_decide; simpl; split; try reflexivity. discriminate.
Qed.

End Facts.

(** X3: the cleanup sweep at clock [now] removes exactly the grants whose
    expiry lies before [now]: every other grant is kept unchanged, and the
    access log and configuration are untouched. *)
Theorem cleanup_removes_exactly_expired (svc : Service) (now : Z) (tok : string) :
  tokenCache (cleanupExpired svc now) !! tok
  = match tokenCache svc !! tok with
    | Some td => if td_expires td <? now then None else Some td
    | None => None
    end
  ∧ accessLogs (cleanupExpired svc now) = accessLogs svc
  ∧ config (cleanupExpired svc now) = config svc.
Proof.
  split; [|split; reflexivity].
  unfold cleanupExpired; simpl. rewrite map_lookup_filter.
  destruct (tokenCache svc !! tok) as [td|]; simpl; [|reflexivity].
  destruct (Z.ltb_spec (td_expires td) now) as [Hlt|Hge].
  - rewrite option_guard_False; [reflexivity|]. simpl. lia.
  - rewrite option_guard_True; [reflexivity|]. simpl. lia.
Qed.

(** X6: [getAccessLogs(limit)] returns, for a positive [limit], the newest
    [min limit n] entries in log order; [getAccessLogs(0)] returns the whole
    log, not the empty list. *)
Theorem getAccessLogs_suffix (svc : Service) (limit : Z) :
  (0 < limit →
   getAccessLogs svc limit
   = drop (length (accessLogs svc) - Z.to_nat limit) (accessLogs svc))
  ∧ (limit = 0 → getAccessLogs svc limit = accessLogs svc).
Proof.
  unfold getAccessLogs, js_slice_from. split.
  - intros Hpos. replace (- limit <? 0) with true by (symmetry; apply Z.ltb_lt; lia).
    f_equal. lia.
  - intros ->. change (- 0) with 0. change (0 <? 0) with false.
    rewrite Z.min_l by lia. reflexivity.
Qed.

End AssetProtectionOpsFacts.

(** ** Closed instances: AssetProtectionService accessors *)

Module AssetProtectionOpsExamples.
Import AssetProtection AssetProtectionOps AssetProtectionOpsFacts.

Example extension_is_case_sensitive :
  issued (generateSignedUrl sampleHmac (newService (defaultConfig "k")) 0 "r" "/img/a.PNG")
  = false.
Proof. vm_compute. reflexivity. Qed.

Example extension_of_dotted_directory :
  getFileExtension "/v1.2/readme" = ".2/readme".
Proof. reflexivity. Qed.

(** [stale_expiry_argument_evicts_grant] on the sample grant (expiry
    900000) at clock 5, with expiry argument 0 and an empty signature. *)
Lemma stale_expiry_argument_evicts_grant_witness :
  let td := {| originalPath := "/img/a.png"; td_expires := 900000 |} in
  enabled (config sampleIssued) = true
  ∧ tokenCache sampleIssued !! "0r" = Some td
  ∧ 0 < 5
  ∧ let r := validateSignedUrl sampleHmac "server" sampleIssued 5 "0r" "" 0 in
    r.1 = None
    ∧ lastAccess r.2 = Some (false, Some "Token expired")
    ∧ tokenCache r.2 = delete "0r" (tokenCache sampleIssued)
    ∧ ∀ now2,
        let r2 := validateSignedUrl sampleHmac "server" r.2 now2 "0r"
                    (generateSignature sampleHmac (config sampleIssued) "0r"
                       (td_expires td) (originalPath td))
                    (td_expires td) in
        r2.1 = None ∧ lastAccess r2.2 = Some (false, Some "Token not found").
Proof.
  cbv zeta.
  assert (H1 : enabled (config sampleIssued) = true) by reflexivity.
  assert (H2 : tokenCache sampleIssued !! "0r"
               = Some {| originalPath := "/img/a.png"; td_expires := 900000 |})
    by (vm_compute; reflexivity).
  assert (H3 : 0 < 5) by lia.
  split; [exact H1|]. split; [exact H2|]. split; [exact H3|].
  exact (stale_expiry_argument_evicts_grant sampleHmac "server" sampleIssued 5 "0r" "" 0
           {| originalPath := "/img/a.png"; td_expires := 900000 |} H1 H2 H3).
Defined.

(** [access_log_bounded] on the sample service, whose log is empty. *)
Lemma access_log_bounded_witness :
  (length (accessLogs sampleIssued) ≤ 1000)%nat
  ∧ (length (accessLogs (validateSignedUrl sampleHmac "server" sampleIssued 5
                           "0r" "" 900000).2) ≤ 1000)%nat
  ∧ (length (accessLogs (generateSignedUrl sampleHmac sampleIssued 5 "r2"
                           "/img/b.png").2) ≤ 1000)%nat.
Proof.
  assert (H : (length (accessLogs sampleIssued) ≤ 1000)%nat) by (vm_compute; lia).
  split; [exact H|].
  exact (access_log_bounded sampleHmac "server" sampleIssued 5 "0r" "" 900000
           "r2" "/img/b.png" H).
Defined.

(** [issuance_decided_by_last_extension] on "/models/scene.v2.glb". *)
Lemma issuance_decided_by_last_extension_witness :
  let svc := newService (defaultConfig "k") in
  enabled (config svc) = true
  ∧ noDot "glb" = true
  ∧ let r := generateSignedUrl sampleHmac svc 0 "r" ("/models/scene.v2" +:+ "." +:+ "glb") in
    getFileExtension ("/models/scene.v2" +:+ "." +:+ "glb") = "." +:+ "glb"
    ∧ issued r = bool_decide ("." +:+ "glb" ∈ allowedExtensions (config svc))
    ∧ (issued r = false → r.2 = svc).
Proof.
  cbv zeta.
  assert (H1 : enabled (config (newService (defaultConfig "k"))) = true) by reflexivity.
  assert (H2 : noDot "glb" = true) by reflexivity.
  split; [exact H1|]. split; [exact H2|].
  exact (issuance_decided_by_last_extension sampleHmac (newService (defaultConfig "k"))
           0 "r" "/models/scene.v2" "glb" H1 H2).
Defined.

End AssetProtectionOpsExamples.

(** * Further properties of the rate limiter *)

Module RateLimiterMoreFacts.
Import RateLimiter.

Lemma append_inj_r (a b c : string) : a +:+ b = a +:+ c → b = c.
Proof. induction a as [|x a IH]; simpl; [auto|]. intros [= H]. auto. Qed.

Lemma checkRateLimit_exceeded st cid url e now rnd :
  hasClient st cid →
  rateLimitStore st !! (cid +:+ ":" +:+ url) = Some e →
  now - firstRequest e ≤ windowSize →
  maxRequests ≤ count e →
  checkRateLimit st now rnd url
  = (Thrown ("Rate limit exceeded for " +:+ url),
     set_rateLimitStore st
       (<[cid +:+ ":" +:+ url :=
            {| count := count e + 1; firstRequest := firstRequest e;
               lastRequest := now; blocked := true |}]> (rateLimitStore st))).
Proof.
  intros Hcl He Hwin Hmax.
  rewrite (RateLimiterFacts.checkRateLimit_in_window st cid url e now rnd Hcl He Hwin).
  replace (maxRequests <? count e + 1) with true by (symmetry; apply Z.ltb_lt; lia).
  reflexivity.
Qed.

Lemma checkRateLimit_seq_blocked calls : ∀ st cid url e,
  hasClient st cid →
  rateLimitStore st !! (cid +:+ ":" +:+ url) = Some e →
  maxRequests ≤ count e →
  Forall (λ c : Z * string, c.1 - firstRequest e ≤ windowSize) calls →
  let r := checkRateLimit_seq st calls url in
  r.1 = replicate (length calls) (Thrown ("Rate limit exceeded for " +:+ url))
  ∧ ∃ e', rateLimitStore r.2 !! (cid +:+ ":" +:+ url) = Some e'
        ∧ count e' = count e + Z.of_nat (length calls)
        ∧ firstRequest e' = firstRequest e
        ∧ (blocked e = true ∨ calls ≠ [] → blocked e' = true).
Proof.
  induction calls as [|[now rnd] rest IH]; intros st cid url e Hcl He Hmax Hall.
  - simpl. split; [reflexivity|]. exists e.
    split; [exact He|]. split; [lia|]. split; [reflexivity|].
    intros [Hb|Hn]; [exact Hb|]. exfalso. apply Hn. reflexivity.
  - apply Forall_cons in Hall as [Hnow Hrest]. simpl in Hnow.
    cbn [checkRateLimit_seq].
    rewrite (checkRateLimit_exceeded st cid url e now rnd Hcl He Hnow Hmax).
    set (e1 := {| count := count e + 1; firstRequest := firstRequest e;
                  lastRequest := now; blocked := true |}).
    set (st1 := set_rateLimitStore st _).
    assert (He1 : rateLimitStore st1 !! (cid +:+ ":" +:+ url) = Some e1)
      by apply lookup_insert_eq.
    specialize (IH st1 cid url e1 Hcl He1 ltac:(simpl; lia) Hrest).
    cbv zeta in IH.
    destruct (checkRateLimit_seq st1 rest url) as [os st2]; simpl in *.
    destruct IH as (Hos & e' & He' & Hc' & Hf' & Hb').
    split; [rewrite Hos; reflexivity|].
    exists e'. split; [exact He'|]. split; [lia|]. split; [exact Hf'|].
    intros _. apply Hb'. left. reflexivity.
Qed.

(** X7: once the counter of a key has reached the ceiling, every further
    call inside the same window throws "Rate limit exceeded", each one
    still counted, and the entry is marked blocked; nothing inside the
    window unblocks it. *)
Theorem blocked_until_window_resets st cid url e (calls : list (Z * string)) :
  hasClient st cid →
  rateLimitStore st !! (cid +:+ ":" +:+ url) = Some e →
  maxRequests ≤ count e →
  calls ≠ [] →
  Forall (λ c : Z * string, c.1 - firstRequest e ≤ windowSize) calls →
  let r := checkRateLimit_seq st calls url in
  r.1 = replicate (length calls) (Thrown ("Rate limit exceeded for " +:+ url))
  ∧ ∃ e', rateLimitStore r.2 !! (cid +:+ ":" +:+ url) = Some e'
        ∧ count e' = count e + Z.of_nat (length calls)
        ∧ firstRequest e' = firstRequest e
        ∧ blocked e' = true.
Proof.
  intros Hcl He Hmax Hne Hall.
  destruct (checkRateLimit_seq_blocked calls st cid url e Hcl He Hmax Hall)
    as (Hos & e' & He' & Hc' & Hf' & Hb').
  split; [exact Hos|]. exists e'. auto 10.
Qed.

(** X8: a call for one url leaves the entry of every other url of the
    same client as it was: requests to one endpoint never use up the
    budget of another. *)
Theorem other_urls_unaffected st cid now rnd url url' :
  hasClient st cid →
  url' ≠ url →
  rateLimitStore (checkRateLimit st now rnd url).2 !! (cid +:+ ":" +:+ url')
  = rateLimitStore st !! (cid +:+ ":" +:+ url').
Proof.
  intros Hcl Hne. unfold checkRateLimit.
  rewrite (RateLimiterFacts.getClientId_stable st cid now rnd Hcl).
  assert (Hkey : cid +:+ ":" +:+ url ≠ cid +:+ ":" +:+ url').
  { intros Heq. apply append_inj_r in Heq. apply append_inj_r in Heq. congruence. }
  destruct (rateLimitStore st !! (cid +:+ ":" +:+ url)) as [e|]; simpl.
  - destruct (windowSize <? _); simpl; [apply lookup_insert_ne; exact Hkey|].
    destruct (maxRequests <? _); simpl; apply lookup_insert_ne; exact Hkey.
  - apply lookup_insert_ne; exact Hkey.
Qed.

(** X9: the purge run with the mapping rotation removes exactly the
    entries idle for more than an hour; an entry used within the last hour
    is kept as it is, blocked or not, and the session storage is untouched. *)
Theorem purge_removes_exactly_stale (st : State) (now : Z) (key : string) :
  rateLimitStore (purgeStale st now) !! key
  = match rateLimitStore st !! key with
    | Some e => if 3600000 <? now - lastRequest e then None else Some e
    | None => None
    end
  ∧ sessionStorage (purgeStale st now) = sessionStorage st.
Proof.
  split; [|reflexivity].
  unfold purgeStale; simpl. rewrite map_lookup_filter.
  destruct (rateLimitStore st !! key) as [e|]; simpl; [|reflexivity].
  destruct (Z.ltb_spec 3600000 (now - lastRequest e)) as [Hlt|Hge].
  - rewrite option_guard_False; [reflexivity|]. simpl. lia.
  - rewrite option_guard_True; [reflexivity|]. simpl. lia.
Qed.

End RateLimiterMoreFacts.

(** ** Closed instances: rate limiter *)

Module RateLimiterMoreExamples.
Import RateLimiter RateLimiterSamples RateLimiterMoreFacts.

(** [blocked_until_window_resets] on a key at the ceiling: three more
    calls inside the window. *)
Lemma blocked_until_window_resets_witness :
  let e := {| count := 100; firstRequest := 0; lastRequest := 10; blocked := false |} in
  let calls := [(20, "a"); (30, "b"); (60000, "c")] in
  hasClient (stateAtCeiling) "client_0_ab12"
  ∧ rateLimitStore stateAtCeiling !! ("client_0_ab12" +:+ ":" +:+ "/api/x") = Some e
  ∧ maxRequests ≤ count e
  ∧ calls ≠ []
  ∧ Forall (λ c : Z * string, c.1 - firstRequest e ≤ windowSize) calls
  ∧ let r := checkRateLimit_seq stateAtCeiling calls "/api/x" in
    r.1 = replicate (length calls) (Thrown ("Rate limit exceeded for " +:+ "/api/x"))
    ∧ ∃ e', rateLimitStore r.2 !! ("client_0_ab12" +:+ ":" +:+ "/api/x") = Some e'
          ∧ count e' = count e + Z.of_nat (length calls)
          ∧ firstRequest e' = firstRequest e
          ∧ blocked e' = true.
Proof.
  cbv zeta.
  assert (H1 : hasClient stateAtCeiling "client_0_ab12")
    by (split; [vm_compute; reflexivity | discriminate]).
  assert (H2 : rateLimitStore stateAtCeiling !! ("client_0_ab12" +:+ ":" +:+ "/api/x")
               = Some {| count := 100; firstRequest := 0; lastRequest := 10;
                         blocked := false |})
    by (vm_compute; reflexivity).
  assert (H3 : maxRequests
               ≤ count {| count := 100; firstRequest := 0; lastRequest := 10;
                          blocked := false |})
    by (unfold maxRequests; simpl; lia).
  assert (H4 : [(20, "a"); (30, "b"); (60000, "c")] ≠ ([] : list (Z * string)))
    by discriminate.
  assert (H5 : Forall (λ c : Z * string,
                         c.1 - firstRequest {| count := 100; firstRequest := 0;
                                               lastRequest := 10; blocked := false |}
                         ≤ windowSize)
                 [(20, "a"); (30, "b"); (60000, "c")])
    by (repeat constructor; unfold windowSize; simpl; lia).
  split; [exact H1|]. split; [exact H2|]. split; [exact H3|]. split; [exact H4|].
  split; [exact H5|].
  exact (blocked_until_window_resets stateAtCeiling "client_0_ab12" "/api/x" _ _
           H1 H2 H3 H4 H5).
Defined.

(** [other_urls_unaffected]: a call for "/api/y" next to the entry of "/api/x". *)
Lemma other_urls_unaffected_witness :
  hasClient stateAtCeiling "client_0_ab12"
  ∧ "/api/x" ≠ "/api/y"
  ∧ rateLimitStore (checkRateLimit stateAtCeiling 40 "z" "/api/y").2
      !! ("client_0_ab12" +:+ ":" +:+ "/api/x")
    = rateLimitStore stateAtCeiling !! ("client_0_ab12" +:+ ":" +:+ "/api/x").
Proof.
  assert (H1 : hasClient stateAtCeiling "client_0_ab12")
    by (split; [vm_compute; reflexivity | discriminate]).
  assert (H2 : "/api/x" ≠ "/api/y") by discriminate.
  split; [exact H1|]. split; [exact H2|].
  exact (other_urls_unaffected stateAtCeiling "client_0_ab12" 40 "z" "/api/y" "/api/x"
           H1 H2).
Defined.

End RateLimiterMoreExamples.

(** * Properties of the endpoint mappings *)

Module ObfuscatorFacts.
Import Obfuscator.

Lemma map_get_set_eq {V} (k : string) (v : V) m : map_get k (map_set k v m) = Some v.
Proof.
  induction m as [|[k' v'] m IH]; simpl.
  - rewrite bool_decide_eq_true_2; reflexivity.
  - case_bool_decide as Hk; simpl.
    + rewrite bool_decide_eq_true_2; reflexivity.
    + rewrite bool_decide_eq_false_2 by exact Hk. exact IH.
Qed.

Lemma map_get_set_ne {V} (k k' : string) (v : V) m :
  k ≠ k' → map_get k' (map_set k v m) = map_get k' m.
Proof.
  intros Hne. induction m as [|[k0 v0] m IH]; simpl.
  - rewrite bool_decide_eq_false_2; [reflexivity | exact Hne].
  - case_bool_decide as Hk; simpl.
    + subst k0. rewrite !bool_decide_eq_false_2 by exact Hne. reflexivity.
    + case_bool_decide; [reflexivity | exact IH].
Qed.

Lemma map_get_keys {V} (k : string) (v : V) m :
  map_get k m = Some v → k ∈ fst <$> m.
Proof.
  induction m as [|[k0 v0] m IH]; simpl; [discriminate|].
  case_bool_decide as Hk; [intros _; subst; left | intros H; right; auto].
Qed.

Lemma map_set_keys {V} (k : string) (v : V) m :
  k ∈ fst <$> m → fst <$> map_set k v m = fst <$> m.
Proof.
  induction m as [|[k0 v0] m IH]; [intros H; inversion H|].
  rewrite fmap_cons. cbn [map_set fst].
  case_bool_decide as Hk; rewrite fmap_cons; cbn [fst]; [subst; reflexivity|].
  intros Hin. apply elem_of_cons in Hin as [->|Hin]; [contradiction|].
  f_equal. apply IH. exact Hin.
Qed.

Lemma map_get_elem_of {V} (k : string) (v : V) m :
  NoDup (fst <$> m) → (k, v) ∈ m → map_get k m = Some v.
Proof.
  induction m as [|[k0 v0] m IH]; simpl; intros Hnd Hin; [inversion Hin|].
  apply NoDup_cons in Hnd as [Hk0 Hnd].
  apply elem_of_cons in Hin as [[= -> ->]|Hin].
  - rewrite bool_decide_eq_true_2; reflexivity.
  - case_bool_decide as Hk; [|auto].
    subst k0. exfalso. apply Hk0.
    apply list_elem_of_fmap. exists (k, v). split; [reflexivity | exact Hin].
Qed.

Section Rotation.

Variable fresh : nat → string.

Lemma rotateLoop_spec entries : ∀ st now k,
  0 < rotationInterval st →
  NoDup (fst <$> entries) →
  (∀ key m, (key, m) ∈ entries → map_get key (endpointMappings st) = Some m) →
  let st' := rotateLoop fresh entries st now k in
  rotationInterval st' = rotationInterval st
  ∧ fst <$> endpointMappings st' = fst <$> endpointMappings st
  ∧ ∀ key m', map_get key (endpointMappings st') = Some m' →
      now < expires m'
      ∨ (map_get key (endpointMappings st) = Some m' ∧ key ∉ fst <$> entries).
Proof.
  induction entries as [|[o m] rest IH]; intros st now k Hint Hnd Hsnap.
  - cbn [rotateLoop]. cbv zeta. split; [reflexivity|]. split; [reflexivity|].
    intros key m' Hget. right. split; [exact Hget|]. intros Hin. inversion Hin.
  - rewrite fmap_cons in Hnd. cbn [fst] in Hnd.
    apply NoDup_cons in Hnd as [Ho Hnd].
    assert (Hom : map_get o (endpointMappings st) = Some m) by (apply Hsnap; left).
    assert (Hrest : ∀ key m0, (key, m0) ∈ rest → key ≠ o).
    { intros key m0 Hin ->. apply Ho. apply list_elem_of_fmap.
      exists (o, m0). split; [reflexivity | exact Hin]. }
    cbn [rotateLoop]. cbv zeta.
    destruct (Z.leb_spec (expires m) now) as [Hexp|Hlive].
    + set (st1 := {| rotationInterval := rotationInterval st;
                     endpointMappings := endpointMappings st;
                     reverseEndpointMappings :=
                       delete (obfuscated m) (reverseEndpointMappings st) |}).
      set (st2 := (createEndpointMapping st1 now (fresh k) o (method m)).2).
      assert (Hsnap2 : ∀ key m0, (key, m0) ∈ rest
                                 → map_get key (endpointMappings st2) = Some m0).
      { intros key m0 Hin. unfold st2, st1; cbn [createEndpointMapping snd endpointMappings].
        rewrite map_get_set_ne; [apply Hsnap; right; exact Hin|].
        intros Heq. apply (Hrest key m0 Hin). congruence. }
      destruct (IH st2 now (S k) Hint Hnd Hsnap2) as (Hi & Hkeys & Hall).
      split; [exact Hi|]. split.
      * rewrite Hkeys. unfold st2, st1; cbn [createEndpointMapping snd endpointMappings].
        apply map_set_keys. eapply map_get_keys. exact Hom.
      * intros key m' Hget. destruct (Hall key m' Hget) as [Hlt|[Hold Hnot]];
          [left; exact Hlt|].
        unfold st2, st1 in Hold; cbn [createEndpointMapping snd endpointMappings] in Hold.
        destruct (decide (o = key)) as [->|Hne].
        -- rewrite map_get_set_eq in Hold. injection Hold as <-.
           cbn [expires rotationInterval]. left. lia.
        -- rewrite map_get_set_ne in Hold by exact Hne. right.
           split; [exact Hold|]. rewrite fmap_cons. cbn [fst]. intros Hin.
           apply elem_of_cons in Hin as [->|Hin]; [congruence | contradiction].
    + assert (Hsnap2 : ∀ key m0, (key, m0) ∈ rest
                                 → map_get key (endpointMappings st) = Some m0)
        by (intros key m0 Hin; apply Hsnap; right; exact Hin).
      destruct (IH st now k Hint Hnd Hsnap2) as (Hi & Hkeys & Hall).
      split; [exact Hi|]. split; [exact Hkeys|].
      intros key m' Hget. destruct (Hall key m' Hget) as [Hlt|[Hold Hnot]];
        [left; exact Hlt|].
      destruct (decide (o = key)) as [->|Hne].
      * left. assert (m' = m) by congruence. subst m'. exact Hlive.
      * right. split; [exact Hold|]. rewrite fmap_cons. cbn [fst]. intros Hin.
        apply elem_of_cons in Hin as [->|Hin]; [congruence | contradiction].
Qed.

(** X11: with a positive rotation interval, after a rotation at clock
    [now] no endpoint mapping is expired, and the mapped original paths are
    the same as before, in the same order. *)
Theorem rotation_leaves_no_expired_mapping st now :
  wellFormed st →
  0 < rotationInterval st →
  let st' := rotateEndpoints fresh st now in
  fst <$> endpointMappings st' = fst <$> endpointMappings st
  ∧ Forall (λ kv, now < expires kv.2) (endpointMappings st')
  ∧ ∀ path, map_get path (endpointMappings st) ≠ None →
            getObfuscatedEndpoint st' now path ≠ None.
Proof.
  intros Hwf Hint. unfold rotateEndpoints.
  destruct (rotateLoop_spec (endpointMappings st) st now 0 Hint Hwf) as (_ & Hkeys & Hall).
  { intros key m Hin. apply map_get_elem_of; assumption. }
  cbv zeta. split; [exact Hkeys|].
  set (st' := rotateLoop fresh (endpointMappings st) st now 0) in *.
  assert (Hwf' : NoDup (fst <$> endpointMappings st')) by (rewrite Hkeys; exact Hwf).
  assert (Hlive : ∀ key m', map_get key (endpointMappings st') = Some m' → now < expires m').
  { intros key m' Hget. destruct (Hall key m' Hget) as [Hlt|[Hold Hnot]]; [exact Hlt|].
    exfalso. apply Hnot. eapply map_get_keys. exact Hold. }
  split.
  - apply Forall_forall. intros [key m'] Hin. simpl.
    apply (Hlive key). apply map_get_elem_of; assumption.
  - intros path Hsome. unfold getObfuscatedEndpoint.
    destruct (map_get path (endpointMappings st)) as [m|] eqn:Hm; [|contradiction].
    apply map_get_keys in Hm. rewrite <- Hkeys in Hm.
    apply list_elem_of_fmap in Hm as ([key m'] & -> & Hin). simpl.
    rewrite (map_get_elem_of key m' _ Hwf' Hin).
    replace (now <? expires m') with true; [discriminate|].
    symmetry. apply Z.ltb_lt. apply (Hlive key). apply map_get_elem_of; assumption.
Qed.

End Rotation.

(** X10: after [createEndpointMapping(path)] returned [obf], the original
    path resolves to [obf] until the mapping expires (rotationInterval
    minutes later) and to nothing from then on, [obf] resolves back to the
    path (to nothing when the path is the empty string), and the lookups of
    every other original path are unchanged. *)
Theorem endpoint_mapping_round_trip (st : State) (now : Z) (obf path mth : string) :
  let st' := (createEndpointMapping st now obf path mth).2 in
  (∀ now', getObfuscatedEndpoint st' now' path
           = if now' <? now + rotationInterval st * 60 * 1000 then Some obf else None)
  ∧ getOriginalEndpoint st' obf = (if bool_decide (path = "") then None else Some path)
  ∧ ∀ now' path', path' ≠ path →
      getObfuscatedEndpoint st' now' path' = getObfuscatedEndpoint st now' path'.
Proof.
  cbv zeta. split; [|split].
  - intros now'. unfold getObfuscatedEndpoint; simpl.
    rewrite map_get_set_eq. reflexivity.
  - unfold getOriginalEndpoint; simpl. rewrite lookup_insert_eq. reflexivity.
  - intros now' path' Hne. unfold getObfuscatedEndpoint; simpl.
    rewrite map_get_set_ne by congruence. reflexivity.
Qed.

(** X12: mapping an endpoint again does not retire its previous
    obfuscated path: the old path still resolves to the original (only a
    rotation deletes reverse entries), although the original now resolves
    to the new path. *)
Theorem remapping_keeps_old_reverse_entry (st : State) (t1 t2 : Z)
    (obf1 obf2 path mth : string) :
  path ≠ "" →
  obf2 ≠ obf1 →
  let st1 := (createEndpointMapping st t1 obf1 path mth).2 in
  let st2 := (createEndpointMapping st1 t2 obf2 path mth).2 in
  getOriginalEndpoint st2 obf1 = Some path
  ∧ getOriginalEndpoint st2 obf2 = Some path
  ∧ map_get path (endpointMappings st2)
    = Some {| original := path; obfuscated := obf2; method := mth; created := t2;
              expires := t2 + rotationInterval st * 60 * 1000 |}.
Proof.
  intros Hpath Hne. cbv zeta. unfold getOriginalEndpoint; simpl.
  rewrite lookup_insert_ne by exact Hne. rewrite !lookup_insert_eq.
  rewrite bool_decide_eq_false_2 by exact Hpath.
  split; [reflexivity|]. split; [reflexivity|]. apply map_get_set_eq.
Qed.

End ObfuscatorFacts.

(** ** Closed instances: endpoint mappings *)

Module ObfuscatorExamples.
Import Obfuscator ObfuscatorFacts.

Example sample_rotation :
  (λ kv, (kv.1, obfuscated kv.2, expires kv.2))
    <$> endpointMappings (rotateEndpoints sampleFresh sampleObfuscator 3600500)
  = [("/api/auth/login", "/n0", 7200500);
     ("/api/user/profile", "/zz00/yy11xx/ww222", 3601000)].
Proof. vm_compute. reflexivity. Qed.

(** [rotation_leaves_no_expired_mapping] on the sample mappings at a clock
    where the first of them has expired. *)
Lemma rotation_leaves_no_expired_mapping_witness :
  wellFormed sampleObfuscator
  ∧ 0 < rotationInterval sampleObfuscator
  ∧ let st' := rotateEndpoints sampleFresh sampleObfuscator 3600500 in
    fst <$> endpointMappings st' = fst <$> endpointMappings sampleObfuscator
    ∧ Forall (λ kv, 3600500 < expires kv.2) (endpointMappings st')
    ∧ ∀ path, map_get path (endpointMappings sampleObfuscator) ≠ None →
              getObfuscatedEndpoint st' 3600500 path ≠ None.
Proof.
  assert (H1 : wellFormed sampleObfuscator).
  { unfold wellFormed. vm_compute. repeat constructor.
    - intros H. apply list_elem_of_singleton in H. discriminate.
    - intros H. inversion H. }
  assert (H2 : 0 < rotationInterval sampleObfuscator) by (vm_compute; reflexivity).
  split; [exact H1|]. split; [exact H2|].
  exact (rotation_leaves_no_expired_mapping sampleFresh sampleObfuscator 3600500 H1 H2).
Defined.

(** [remapping_keeps_old_reverse_entry] on "/api/assets/scene". *)
Lemma remapping_keeps_old_reverse_entry_witness :
  "/api/assets/scene" ≠ ""
  ∧ "/new1/new222/new33" ≠ "/old1/old222/old33"
  ∧ let st1 := (createEndpointMapping sampleObfuscator 5 "/old1/old222/old33"
                  "/api/assets/scene" "GET").2 in
    let st2 := (createEndpointMapping st1 9 "/new1/new222/new33"
                  "/api/assets/scene" "GET").2 in
    getOriginalEndpoint st2 "/old1/old222/old33" = Some "/api/assets/scene"
    ∧ getOriginalEndpoint st2 "/new1/new222/new33" = Some "/api/assets/scene"
    ∧ map_get "/api/assets/scene" (endpointMappings st2)
      = Some {| original := "/api/assets/scene"; obfuscated := "/new1/new222/new33";
                method := "GET"; created := 9;
                expires := 9 + rotationInterval sampleObfuscator * 60 * 1000 |}.
Proof.
  assert (H1 : "/api/assets/scene" ≠ "") by discriminate.
  assert (H2 : "/new1/new222/new33" ≠ "/old1/old222/old33") by discriminate.
  split; [exact H1|]. split; [exact H2|].
  exact (remapping_keeps_old_reverse_entry sampleObfuscator 5 9 "/old1/old222/old33"
           "/new1/new222/new33" "/api/assets/scene" "GET" H1 H2).
Defined.

End ObfuscatorExamples.

(** * Further properties of DevToolsDetector *)

Module DevToolsOpsFacts.
Import DevTools DevToolsOps.

Lemma length_slice_last {A} (n : nat) (l : list A) :
  (length (slice_last n l) ≤ n)%nat.
Proof. unfold slice_last. rewrite length_drop. lia. Qed.

Lemma slice_last_short {A} (n : nat) (l : list A) :
  (length l ≤ n)%nat → slice_last n l = l.
Proof.
  intros H. unfold slice_last.
  replace (length l - n)%nat with 0%nat by lia. reflexivity.
Qed.

Lemma detectionHistory_storeHistory d results :
  detectionHistory (storeHistory d results)
  = slice_last 10 (detectionHistory d ++ results).
Proof.
  unfold storeHistory; simpl.
  destruct (Nat.ltb_spec 10 (length (detectionHistory d ++ results))) as [H|H];
    [reflexivity|].
  symmetry. apply slice_last_short. exact H.
Qed.

(** What [handleDetection] does to the fields that later ticks rely on. *)
Lemma handleDetection_frame d detection :
  let d' := (handleDetection d detection).2 in
  config d' = config d
  ∧ detectionHistory d' = detectionHistory d
  ∧ (warningShown d = true → warningShown d' = true)
  ∧ ((warningShown d' = warningShown d ∧ warningsDisplayed d' = warningsDisplayed d)
     ∨ (warningShown d = false ∧ warningShown d' = true
        ∧ warningsDisplayed d' = warningsDisplayed d + 1)).
Proof.
  unfold handleDetection.
  destruct (onDetection (config d)) as [cb|];
    [destruct (cb _ _)|];
    try (destruct (blockOnDetection (config d)));
    destruct (warningShown d) eqn:Hw; simpl; rewrite ?Hw; auto 10.
Qed.

Section Tick.

Variable timingBasedDetection : Z → outcome DetectionResult.
Variable resizeBasedDetection : Z → outcome DetectionResult.
Variable consoleBasedDetection : Z → outcome DetectionResult.
Variable debuggerBasedDetection : Z → outcome DetectionResult.

Local Notation run :=
  (runDetection timingBasedDetection resizeBasedDetection
                consoleBasedDetection debuggerBasedDetection).
Local Notation collect :=
  (collectResults timingBasedDetection resizeBasedDetection
                  consoleBasedDetection debuggerBasedDetection).
Local Notation detect :=
  (detectByMethod timingBasedDetection resizeBasedDetection
                  consoleBasedDetection debuggerBasedDetection).

Lemma runDetection_frame d now :
  let d' := (run d now).2 in
  config d' = config d
  ∧ (warningShown d = true → warningShown d' = true)
  ∧ ((warningShown d' = warningShown d ∧ warningsDisplayed d' = warningsDisplayed d)
     ∨ (warningShown d = false ∧ warningShown d' = true
        ∧ warningsDisplayed d' = warningsDisplayed d + 1)).
Proof.
  unfold runDetection.
  destruct (reduce1 better _) as [best|]; [|simpl; auto].
  destruct (handleDetection_frame d best) as (Hc & _ & Hs & Hw).
  destruct (handleDetection d best) as [[u|msg] d1]; simpl in *; auto.
Qed.

(** X13: a tick that completes leaves as history the last ten entries of
    the old history followed by this tick's results (all probes, qualifying
    or not); a tick that throws leaves the history as it was.  So a history
    of at most ten entries stays at most ten entries long. *)
Theorem history_keeps_last_ten d now :
  let r := runDetection timingBasedDetection resizeBasedDetection
             consoleBasedDetection debuggerBasedDetection d now in
  detectionHistory r.2
  = match r.1 with
    | Returned _ =>
        slice_last 10
          (detectionHistory d
           ++ collectResults timingBasedDetection resizeBasedDetection
                consoleBasedDetection debuggerBasedDetection
                (detectionMethods (config d)) now)
    | Thrown _ => detectionHistory d
    end
  ∧ ((length (detectionHistory d) ≤ 10)%nat → (length (detectionHistory r.2) ≤ 10)%nat).
Proof.
  cbv zeta. unfold runDetection.
  destruct (reduce1 better _) as [best|].
  - destruct (handleDetection_frame d best) as (_ & Hh & _).
    destruct (handleDetection d best) as [[u|msg] d1]; cbn [fst snd] in *.
    + rewrite detectionHistory_storeHistory, Hh.
      split; [reflexivity|]. intros _. apply length_slice_last.
    + rewrite Hh. split; [reflexivity | auto].
  - cbn [fst snd]. rewrite detectionHistory_storeHistory.
    split; [reflexivity|]. intros _. apply length_slice_last.
Qed.

(** X14: a tick calls the detection callback at most once, and only with
    the method and confidence of a result of this tick that has
    [detected = true] and a confidence at or above the threshold. *)
Theorem callback_only_for_qualifying_result d now :
  let d' := (runDetection timingBasedDetection resizeBasedDetection
               consoleBasedDetection debuggerBasedDetection d now).2 in
  callbackCalls d' = callbackCalls d
  ∨ ∃ best,
      best ∈ collectResults timingBasedDetection resizeBasedDetection
               consoleBasedDetection debuggerBasedDetection
               (detectionMethods (config d)) now
      ∧ detected best = true
      ∧ (confidenceThreshold (config d) <= confidence best)%Q
      ∧ callbackCalls d' = callbackCalls d ++ [(method best, confidence best)].
Proof.
  cbv zeta. unfold runDetection.
  destruct (reduce1 better _) as [best|] eqn:Hred; [|left; reflexivity].
  destruct (DevToolsFacts.reduce1_better_max _ _ Hred) as [Hin _].
  apply list_elem_of_filter in Hin as [Hq Hin].
  unfold qualifies in Hq. apply andb_true_iff in Hq as [Hdet Hconf].
  apply Qle_bool_iff in Hconf.
  destruct (onDetection (config d)) as [cb|] eqn:Hcb.
  - right. exists best. repeat split; try assumption.
    pose proof (DevToolsFacts.handleDetection_calls d best cb Hcb) as Hcalls.
    destruct (handleDetection d best) as [[u|msg] d1]; simpl in *; exact Hcalls.
  - left. pose proof (DevToolsFacts.handleDetection_unregistered d best Hcb) as Hcalls.
    destruct (handleDetection d best) as [[u|msg] d1]; simpl in *; exact Hcalls.
Qed.

Lemma runTicks_warning ticks : ∀ d,
  let d' := runTicks timingBasedDetection resizeBasedDetection
              consoleBasedDetection debuggerBasedDetection d ticks in
  (warningShown d = true → warningShown d' = true)
  ∧ ((warningShown d' = warningShown d ∧ warningsDisplayed d' = warningsDisplayed d)
     ∨ (warningShown d = false ∧ warningShown d' = true
        ∧ warningsDisplayed d' = warningsDisplayed d + 1)).
Proof.
  induction ticks as [|now ticks IH]; intros d; simpl; [auto|].
  destruct (runDetection_frame d now) as (_ & Hs & Hw).
  destruct (IH (run d now).2) as (Hs' & Hw').
  split; [auto|].
  destruct Hw as [[E1 E2]|(F & T & E2)].
  - destruct Hw' as [[E1' E2']|(F' & T' & E2')].
    + left. split; congruence.
    + right. split; [congruence|]. split; [exact T'|]. lia.
  - destruct Hw' as [[E1' E2']|(F' & T' & E2')]; [|congruence].
    right. split; [exact F|]. split; [congruence|]. lia.
Qed.

(** X15: over any number of timer ticks the warning overlay is shown at
    most once, and not at all once [warningShown] is set. *)
Theorem warning_shown_at_most_once d (ticks : list Z) :
  let d' := runTicks timingBasedDetection resizeBasedDetection
              consoleBasedDetection debuggerBasedDetection d ticks in
  warningsDisplayed d ≤ warningsDisplayed d' ≤ warningsDisplayed d + 1
  ∧ (warningShown d = true → warningsDisplayed d' = warningsDisplayed d).
Proof.
  cbv zeta. destruct (runTicks_warning ticks d) as (Hs & [[E1 E2]|(F & T & E2)]).
  - split; [lia | auto].
  - split; [lia|]. congruence.
Qed.

(** X16: [checkNow] has no guard around the probes: it returns exactly
    the results a tick would collect when no configured probe throws, and
    throws with the first probe's error as soon as one does, where a tick
    would skip that probe and go on. *)
Theorem checkNow_has_no_probe_guard d now :
  match checkNow timingBasedDetection resizeBasedDetection
          consoleBasedDetection debuggerBasedDetection d now with
  | Returned results =>
      results = collectResults timingBasedDetection resizeBasedDetection
                  consoleBasedDetection debuggerBasedDetection
                  (detectionMethods (config d)) now
      ∧ ∀ mth msg, mth ∈ detectionMethods (config d) →
          detectByMethod timingBasedDetection resizeBasedDetection
            consoleBasedDetection debuggerBasedDetection mth now ≠ Thrown msg
  | Thrown msg =>
      ∃ mth, mth ∈ detectionMethods (config d)
        ∧ detectByMethod timingBasedDetection resizeBasedDetection
            consoleBasedDetection debuggerBasedDetection mth now = Thrown msg
  end.
Proof.
  unfold checkNow. induction (detectionMethods (config d)) as [|mth rest IH]; simpl.
  - split; [reflexivity|]. intros mth msg Hin. inversion Hin.
  - destruct (detect mth now) as [result|msg] eqn:Hd.
    + destruct (checkNowLoop _ _ _ _ rest now) as [results|msg].
      * destruct IH as [-> Hno]. split; [destruct result; reflexivity|].
        intros m msg Hin. apply elem_of_cons in Hin as [->|Hin]; [congruence | auto].
      * destruct IH as (m & Hin & Hm). exists m. split; [right; exact Hin | exact Hm].
    + exists mth. split; [left | exact Hd].
Qed.

End Tick.

End DevToolsOpsFacts.

(** ** Closed instances: DevToolsDetector *)

Module DevToolsOpsExamples.
Import DevTools DevToolsOps DevToolsOpsFacts.

Example tick_skips_failing_probe_checkNow_throws :
  (method <$> collectResults sampleTiming sampleResize sampleConsole sampleDebugger
                (detectionMethods sampleConfig) 4)
  = ["timing"; "resize"; "console"]
  ∧ checkNow sampleTiming sampleResize sampleConsole sampleDebugger
      (newDetector sampleConfig) 4
    = Thrown "probe failed".
Proof. split; reflexivity. Qed.

Example five_ticks_fill_history :
  let d := runTicks sampleTiming sampleResize sampleConsole sampleDebugger
             (newDetector sampleConfig) [1; 2; 3; 4; 5] in
  length (detectionHistory d) = 10%nat
  ∧ warningsDisplayed d = 1
  ∧ length (callbackCalls d) = 5%nat.
Proof. vm_compute. repeat split. Qed.

(** [history_keeps_last_ten] from an empty history. *)
Lemma history_keeps_last_ten_witness :
  let d := newDetector sampleConfig in
  (length (detectionHistory d) ≤ 10)%nat
  ∧ (length (detectionHistory
               (runDetection sampleTiming sampleResize sampleConsole sampleDebugger
                  d 4).2) ≤ 10)%nat.
Proof.
  cbv zeta.
  assert (H : (length (detectionHistory (newDetector sampleConfig)) ≤ 10)%nat)
    by (simpl; lia).
  split; [exact H|].
  exact (proj2 (history_keeps_last_ten sampleTiming sampleResize sampleConsole
                  sampleDebugger (newDetector sampleConfig) 4) H).
Defined.

End DevToolsOpsExamples.

(** * Further properties of IntegrityVerifier *)

Module IntegrityOpsFacts.
Import Integrity IntegrityOps.

Section Facts.

Variable digest : HashAlgorithm → string → outcome string.
Variable onTamperDetected : TamperEvent → outcome unit.

Local Notation verifyElement := (verifyElement digest onTamperDetected).
Local Notation verifyLoop := (verifyLoop digest onTamperDetected).
Local Notation verifyCycles := (verifyCycles digest onTamperDetected).

Lemma verifyElement_adopts v now element h :
  generateHash digest (config v) (content element) (id element) = Returned h →
  buildTimeHashes v !! id element = None →
  verifyElement v now element
  = (Returned true, set_buildTimeHashes v (<[id element := h]> (buildTimeHashes v))).
Proof.
  intros Hh Hnone. unfold Integrity.verifyElement. rewrite Hh, Hnone. reflexivity.
Qed.

Lemma verifyElement_matches v now element h :
  generateHash digest (config v) (content element) (id element) = Returned h →
  buildTimeHashes v !! id element = Some h →
  h ≠ "" →
  verifyElement v now element
  = (Returned true,
     set_checks v (<[id element := {| hash := h; timestamp := now; verified := true;
                                      failureCount := 0 |}]> (checks v))).
Proof.
  intros Hh Hbase Hne. unfold Integrity.verifyElement. rewrite Hh, Hbase.
  rewrite bool_decide_eq_false_2 by exact Hne.
  rewrite bool_decide_eq_true_2 by reflexivity. reflexivity.
Qed.

(** A mismatching check when the handler returns. *)
Lemma verifyElement_mismatch v now element h expected :
  generateHash digest (config v) (content element) (id element) = Returned h →
  buildTimeHashes v !! id element = Some expected →
  expected ≠ "" →
  h ≠ expected →
  (∀ ev, onTamperDetected ev = Returned tt) →
  0 ≤ priorFailures v (id element) →
  let n := priorFailures v (id element) + 1 in
  let ev := {| type := "integrity_failure"; ev_timestamp := now;
               expectedHash := expected; actualHash := h; location := id element;
               severity := if maxFailures (config v) <=? n then Critical else Medium |} in
  verifyElement v now element
  = (Returned false,
     {| config := config v;
        checks := <[id element := {| hash := h; timestamp := now; verified := false;
                                     failureCount := n |}]> (checks v);
        isVerifying := isVerifying v;
        buildTimeHashes := buildTimeHashes v;
        tamperEvents := tamperEvents v ++ [ev];
        criticalEvents :=
          if maxFailures (config v) <=? n then criticalEvents v ++ [ev]
          else criticalEvents v |}).
Proof.
  intros Hh Hbase Hne Hdiff Hret Hprior. cbv zeta.
  unfold Integrity.verifyElement. rewrite Hh, Hbase.
  rewrite bool_decide_eq_false_2 by exact Hne.
  rewrite bool_decide_eq_false_2 by exact Hdiff.
  unfold handleIntegrityFailure, set_checks; simpl.
  rewrite lookup_insert_eq; simpl.
  fold (priorFailures v (id element)).
  replace (priorFailures v (id element) + 1 =? 0) with false
    by (symmetry; apply Z.eqb_neq; lia).
  rewrite Hret.
  destruct (maxFailures (config v) <=? priorFailures v (id element) + 1); reflexivity.
Qed.

(** X17: trust on first use.  An element without a baseline entry is
    adopted by its first check, which returns true and records neither a
    check nor a tamper event; the next check of the same content verifies
    it against the adopted hash.  (The digest must be non-empty: an empty
    baseline entry counts as absent.) *)
Theorem first_check_adopts_then_verifies v t1 t2 element h :
  generateHash digest (config v) (content element) (id element) = Returned h →
  h ≠ "" →
  buildTimeHashes v !! id element = None →
  let r1 := Integrity.verifyElement digest onTamperDetected v t1 element in
  let r2 := Integrity.verifyElement digest onTamperDetected r1.2 t2 element in
  r1.1 = Returned true
  ∧ buildTimeHashes r1.2 !! id element = Some h
  ∧ checks r1.2 = checks v
  ∧ tamperEvents r1.2 = tamperEvents v
  ∧ r2.1 = Returned true
  ∧ checks r2.2 !! id element
    = Some {| hash := h; timestamp := t2; verified := true; failureCount := 0 |}
  ∧ tamperEvents r2.2 = tamperEvents v.
Proof.
  intros Hh Hne Hnone. cbv zeta.
  rewrite (verifyElement_adopts v t1 element h Hh Hnone). cbn [fst snd].
  split; [reflexivity|]. split; [apply lookup_insert_eq|].
  split; [reflexivity|]. split; [reflexivity|].
  rewrite (verifyElement_matches _ t2 element h); [| exact Hh | apply lookup_insert_eq | exact Hne].
  cbn [fst snd]. split; [reflexivity|]. split; [apply lookup_insert_eq | reflexivity].
Qed.

Lemma verifyCycles_mismatch times : ∀ v element h expected,
  generateHash digest (config v) (content element) (id element) = Returned h →
  buildTimeHashes v !! id element = Some expected →
  expected ≠ "" →
  h ≠ expected →
  (∀ ev, onTamperDetected ev = Returned tt) →
  0 ≤ priorFailures v (id element) →
  1 ≤ maxFailures (config v) →
  let v' := verifyCycles v times element in
  let n := Z.of_nat (length times) in
  config v' = config v
  ∧ buildTimeHashes v' = buildTimeHashes v
  ∧ priorFailures v' (id element) = priorFailures v (id element) + n
  ∧ Z.of_nat (length (tamperEvents v')) = Z.of_nat (length (tamperEvents v)) + n
  ∧ Z.of_nat (length (criticalEvents v'))
    = Z.of_nat (length (criticalEvents v))
      + Z.max 0 (Z.min n (priorFailures v (id element) + n + 1
                          - maxFailures (config v))).
Proof.
  induction times as [|now times IH];
    intros v element h expected Hh Hbase Hne Hdiff Hret Hprior Hmax.
  - simpl. repeat split; lia.
  - unfold IntegrityOps.verifyCycles. cbn [foldl].
    rewrite (verifyElement_mismatch v now element h expected Hh Hbase Hne Hdiff Hret Hprior).
    cbn [snd].
    set (v1 := {| config := config v; checks := _ |}).
    assert (Hp1 : priorFailures v1 (id element) = priorFailures v (id element) + 1).
    { unfold priorFailures at 1. simpl. rewrite lookup_insert_eq. reflexivity. }
    specialize (IH v1 element h expected Hh Hbase Hne Hdiff Hret
                  ltac:(rewrite Hp1; lia) Hmax).
    cbv zeta in IH. unfold IntegrityOps.verifyCycles in IH.
    destruct IH as (Hc & Hb & Hp & Ht & Hcr).
    split; [exact Hc|]. split; [exact Hb|].
    rewrite Hp, Ht, Hcr, Hp1. simpl length.
    split; [lia|]. split.
    + simpl. rewrite length_app. simpl. lia.
    + simpl.
      destruct (Z.leb_spec (maxFailures (config v)) (priorFailures v (id element) + 1));
        [rewrite length_app; simpl|]; lia.
Qed.

(** X18: while an element keeps mismatching its baseline, every check
    raises the failure counter by one and reports one tamper event to the
    handler (the event is emitted again on every cycle), and from the
    check that brings the counter to [maxFailures] on, every check also
    runs the critical response. *)
Theorem mismatch_reported_every_cycle v (times : list Z) element h expected :
  generateHash digest (config v) (content element) (id element) = Returned h →
  buildTimeHashes v !! id element = Some expected →
  expected ≠ "" →
  h ≠ expected →
  (∀ ev, onTamperDetected ev = Returned tt) →
  checks v !! id element = None →
  1 ≤ maxFailures (config v) →
  let v' := IntegrityOps.verifyCycles digest onTamperDetected v times element in
  let n := Z.of_nat (length times) in
  priorFailures v' (id element) = n
  ∧ Z.of_nat (length (tamperEvents v')) = Z.of_nat (length (tamperEvents v)) + n
  ∧ Z.of_nat (length (criticalEvents v'))
    = Z.of_nat (length (criticalEvents v)) + Z.max 0 (n + 1 - maxFailures (config v))
  ∧ buildTimeHashes v' = buildTimeHashes v.
Proof.
  intros Hh Hbase Hne Hdiff Hret Hnone Hmax.
  assert (Hp0 : priorFailures v (id element) = 0)
    by (unfold priorFailures; rewrite Hnone; reflexivity).
  destruct (verifyCycles_mismatch times v element h expected Hh Hbase Hne Hdiff Hret
              ltac:(lia) Hmax) as (_ & Hb & Hp & Ht & Hcr).
  cbv zeta. rewrite Hp, Ht, Hcr, Hp0.
  split; [lia|]. split; [lia|]. split; [lia | exact Hb].
Qed.

Lemma baseline_verifyElement v now element key h :
  buildTimeHashes v !! key = Some h →
  h ≠ "" →
  buildTimeHashes (verifyElement v now element).2 !! key = Some h.
Proof.
  intros Hbase Hne. unfold Integrity.verifyElement.
  destruct (generateHash _ _ _ _) as [cur|msg]; [|exact Hbase].
  destruct (buildTimeHashes v !! id element) as [expected|] eqn:He.
  - case_bool_decide as Hemp.
    + simpl. rewrite lookup_insert_ne; [exact Hbase|].
      intros <-. rewrite He in Hbase. congruence.
    + case_bool_decide; [exact Hbase|].
      unfold handleIntegrityFailure.
      destruct (onTamperDetected _); [destruct (_ <=? _)|]; exact Hbase.
  - simpl. rewrite lookup_insert_ne; [exact Hbase|].
    intros <-. rewrite He in Hbase. discriminate.
Qed.

Lemma baseline_verifyLoop elements : ∀ v now acc key h,
  buildTimeHashes v !! key = Some h →
  h ≠ "" →
  buildTimeHashes (verifyLoop v now elements acc).2 !! key = Some h.
Proof.
  induction elements as [|e rest IH]; intros v now acc key h Hbase Hne; simpl;
    [exact Hbase|].
  pose proof (baseline_verifyElement v now e key h Hbase Hne) as H1.
  destruct (verifyElement v now e) as [[ok|msg] v1]; simpl in *; [|exact H1].
  apply IH; assumption.
Qed.

(** X19: a verification pass never rewrites a baseline entry that holds
    a non-empty hash, whatever the page contains and whether or not the
    pass is cut short: changed content is reported, not adopted. *)
Theorem baseline_entries_are_never_rewritten v now elements key h :
  buildTimeHashes v !! key = Some h →
  h ≠ "" →
  buildTimeHashes
    (performIntegrityCheck digest onTamperDetected v now elements).2 !! key
  = Some h.
Proof.
  intros Hbase Hne. unfold performIntegrityCheck.
  destruct (isVerifying v); [exact Hbase|].
  pose proof (baseline_verifyLoop elements (set_isVerifying v true) now true key h
                Hbase Hne) as H.
  destruct (verifyLoop _ _ _ _) as [[ok|msg] v1]; exact H.
Qed.

End Facts.

End IntegrityOpsFacts.

(** ** Closed instances: IntegrityVerifier *)

Module IntegrityOpsExamples.
Import Integrity IntegrityOps IntegrityOpsFacts.

(** An empty digest is adopted again on every check and never verified. *)
Example empty_digest_is_never_verified :
  let v := (verifyElement (λ _ _, Returned "") sampleHandler sampleVerifier 1
              {| id := "n"; content := "x" |}).2 in
  let r := verifyElement (λ _ _, Returned "") sampleHandler v 2
             {| id := "n"; content := "changed" |} in
  r.1 = Returned true ∧ checks r.2 !! "n" = None.
Proof. vm_compute. split; reflexivity. Qed.

(** [first_check_adopts_then_verifies] on a new element "n". *)
Lemma first_check_adopts_then_verifies_witness :
  let element := {| id := "n"; content := "x" |} in
  generateHash sampleDigest (config sampleVerifier) (content element) (id element)
  = Returned "xn"
  ∧ "xn" ≠ ""
  ∧ buildTimeHashes sampleVerifier !! id element = None
  ∧ let r1 := verifyElement sampleDigest sampleHandler sampleVerifier 1 element in
    let r2 := verifyElement sampleDigest sampleHandler r1.2 2 element in
    r1.1 = Returned true
    ∧ buildTimeHashes r1.2 !! id element = Some "xn"
    ∧ checks r1.2 = checks sampleVerifier
    ∧ tamperEvents r1.2 = tamperEvents sampleVerifier
    ∧ r2.1 = Returned true
    ∧ checks r2.2 !! id element
      = Some {| hash := "xn"; timestamp := 2; verified := true; failureCount := 0 |}
    ∧ tamperEvents r2.2 = tamperEvents sampleVerifier.
Proof.
  cbv zeta.
  assert (H1 : generateHash sampleDigest (config sampleVerifier)
                 (content {| id := "n"; content := "x" |})
                 (id {| id := "n"; content := "x" |}) = Returned "xn") by reflexivity.
  assert (H2 : "xn" ≠ "") by discriminate.
  assert (H3 : buildTimeHashes sampleVerifier !! id {| id := "n"; content := "x" |} = None)
    by (vm_compute; reflexivity).
  split; [exact H1|]. split; [exact H2|]. split; [exact H3|].
  exact (first_check_adopts_then_verifies sampleDigest sampleHandler sampleVerifier 1 2
           {| id := "n"; content := "x" |} "xn" H1 H2 H3).
Defined.

(** [mismatch_reported_every_cycle]: element "c" tampered, five cycles,
    [maxFailures = 3]: five tamper events, three critical responses. *)
Lemma mismatch_reported_every_cycle_witness :
  let times := [1; 2; 3; 4; 5] in
  generateHash sampleDigest (config sampleVerifier) (content elemC) (id elemC)
  = Returned "tamperedc"
  ∧ buildTimeHashes sampleVerifier !! id elemC = Some "zc"
  ∧ "zc" ≠ ""
  ∧ "tamperedc" ≠ "zc"
  ∧ (∀ ev, sampleHandler ev = Returned tt)
  ∧ checks sampleVerifier !! id elemC = None
  ∧ 1 ≤ maxFailures (config sampleVerifier)
  ∧ let v' := verifyCycles sampleDigest sampleHandler sampleVerifier times elemC in
    let n := Z.of_nat (length times) in
    priorFailures v' (id elemC) = n
    ∧ Z.of_nat (length (tamperEvents v'))
      = Z.of_nat (length (tamperEvents sampleVerifier)) + n
    ∧ Z.of_nat (length (criticalEvents v'))
      = Z.of_nat (length (criticalEvents sampleVerifier))
        + Z.max 0 (n + 1 - maxFailures (config sampleVerifier))
    ∧ buildTimeHashes v' = buildTimeHashes sampleVerifier.
Proof.
  cbv zeta.
  assert (H1 : generateHash sampleDigest (config sampleVerifier) (content elemC) (id elemC)
               = Returned "tamperedc") by reflexivity.
  assert (H2 : buildTimeHashes sampleVerifier !! id elemC = Some "zc")
    by (vm_compute; reflexivity).
  assert (H3 : "zc" ≠ "") by discriminate.
  assert (H4 : "tamperedc" ≠ "zc") by discriminate.
  assert (H5 : ∀ ev, sampleHandler ev = Returned tt) by reflexivity.
  assert (H6 : checks sampleVerifier !! id elemC = None) by (vm_compute; reflexivity).
  assert (H7 : 1 ≤ maxFailures (config sampleVerifier)) by (simpl; lia).
  split; [exact H1|]. split; [exact H2|]. split; [exact H3|]. split; [exact H4|].
  split; [exact H5|]. split; [exact H6|]. split; [exact H7|].
  exact (mismatch_reported_every_cycle sampleDigest sampleHandler sampleVerifier
           [1; 2; 3; 4; 5] elemC "tamperedc" "zc" H1 H2 H3 H4 H5 H6 H7).
Defined.

(** [baseline_entries_are_never_rewritten] for "c" over a pass in which
    "c" is tampered. *)
Lemma baseline_entries_are_never_rewritten_witness :
  buildTimeHashes sampleVerifier !! "c" = Some "zc"
  ∧ "zc" ≠ ""
  ∧ buildTimeHashes
      (performIntegrityCheck sampleDigest sampleHandler sampleVerifier 7
         [elemA; elemC]).2 !! "c"
    = Some "zc".
Proof.
  assert (H1 : buildTimeHashes sampleVerifier !! "c" = Some "zc")
    by (vm_compute; reflexivity).
  assert (H2 : "zc" ≠ "") by discriminate.
  split; [exact H1|]. split; [exact H2|].
  exact (baseline_entries_are_never_rewritten sampleDigest sampleHandler sampleVerifier 7
           [elemA; elemC] "c" "zc" H1 H2).
Defined.

End IntegrityOpsExamples.

(** * Further properties of SecurityMonitor *)

Module MonitorOpsFacts.
Import Monitor MonitorOps.

Lemma computedThreatLevel_levelOf m now stats :
  computedThreatLevel m now stats = Some (levelOf (alerts m)).
Proof. reflexivity. Qed.

Lemma countSeverity_app s l1 l2 :
  countSeverity s (l1 ++ l2) = countSeverity s l1 + countSeverity s l2.
Proof.
  unfold countSeverity. rewrite filter_app, length_app. lia.
Qed.

Lemma countSeverity_nonneg s l : 0 ≤ countSeverity s l.
Proof. unfold countSeverity. lia. Qed.

Lemma countSeverity_le_length s l : countSeverity s l ≤ Z.of_nat (length l).
Proof. unfold countSeverity. pose proof (length_filter (λ a, severity a = s) l). lia. Qed.

(** The level depends on the severities only. *)
Lemma countSeverity_severities s l1 l2 :
  severity <$> l1 = severity <$> l2 → countSeverity s l1 = countSeverity s l2.
Proof.
  revert l2. induction l1 as [|a l1 IH]; intros [|b l2] H; try discriminate;
    [reflexivity|].
  cbn in H. injection H as Hab Hrest.
  unfold countSeverity in *. rewrite !filter_cons. rewrite Hab.
  specialize (IH l2 Hrest).
  destruct (decide (severity b = s)); simpl; lia.
Qed.

Lemma levelOf_severities l1 l2 :
  severity <$> l1 = severity <$> l2 → levelOf l1 = levelOf l2.
Proof.
  intros H. unfold levelOf.
  rewrite (countSeverity_severities Critical l1 l2 H).
  rewrite (countSeverity_severities High l1 l2 H).
  assert (Hlen : length l1 = length l2)
    by (rewrite <- (length_fmap severity l1), H, length_fmap; reflexivity).
  rewrite Hlen. reflexivity.
Qed.

Lemma levelOf_Permutation l1 l2 : l1 ≡ₚ l2 → levelOf l1 = levelOf l2.
Proof.
  intros H. unfold levelOf, countSeverity.
  rewrite !(Permutation_length (filter_Permutation _ _ _ H)).
  rewrite (Permutation_length H). reflexivity.
Qed.

(** X20: recording one more alert never lowers the computed threat level. *)
Theorem threat_level_never_drops_on_new_alert m a now now' stats stats' :
  ∃ before after,
    computedThreatLevel m now stats = Some before
    ∧ computedThreatLevel (pushAlert m a) now' stats' = Some after
    ∧ severityRank before ≤ severityRank after.
Proof.
  exists (levelOf (alerts m)), (levelOf (alerts m ++ [a])).
  split; [reflexivity|]. split; [reflexivity|].
  unfold levelOf. rewrite !countSeverity_app, length_app.
  pose proof (countSeverity_nonneg Critical [a]).
  pose proof (countSeverity_nonneg High [a]).
  repeat match goal with
         | |- context [?x <? ?y] => destruct (Z.ltb_spec x y)
         end; simpl; try lia.
Qed.

Lemma acknowledgeFirst_spec alertId l :
  let r := acknowledgeFirst alertId l in
  severity <$> r.2 = severity <$> l
  ∧ id <$> r.2 = id <$> l
  ∧ (r.1 = true ↔ ∃ a, a ∈ l ∧ id a = alertId)
  ∧ (r.1 = false → r.2 = l).
Proof.
  induction l as [|a l IH]; simpl.
  - split; [reflexivity|]. split; [reflexivity|]. split; [|reflexivity].
    split; [discriminate|]. intros (a & Hin & _). inversion Hin.
  - case_bool_decide as Hid; simpl.
    + split; [reflexivity|]. split; [reflexivity|]. split; [|discriminate].
      split; [|reflexivity]. intros _. exists a. split; [left | exact Hid].
    + destruct (acknowledgeFirst alertId l) as [found l'].
      simpl in IH. destruct IH as (Hs & Hi & Hf & Hn). simpl.
      split; [f_equal; exact Hs|].
      split; [f_equal; exact Hi|].
      split.
      * rewrite Hf. split.
        -- intros (b & Hin & Hb). exists b. split; [right; exact Hin | exact Hb].
        -- intros (b & Hin & Hb). apply elem_of_cons in Hin as [->|Hin];
             [contradiction|]. exists b. split; assumption.
      * intros Hfalse. rewrite (Hn Hfalse). reflexivity.
Qed.

(** X21: [acknowledgeAlert] reports whether an alert with that id exists
    and changes nothing when none does; when one does, the alerts keep
    their ids, order and severities, so the computed threat level is not
    lowered by acknowledging. *)
Theorem acknowledging_keeps_threat_level m alertId now stats :
  let r := acknowledgeAlert m alertId in
  computedThreatLevel r.2 now stats = computedThreatLevel m now stats
  ∧ id <$> alerts r.2 = id <$> alerts m
  ∧ (r.1 = true ↔ ∃ a, a ∈ alerts m ∧ id a = alertId)
  ∧ (r.1 = false → alerts r.2 = alerts m).
Proof.
  cbv zeta. unfold acknowledgeAlert.
  pose proof (acknowledgeFirst_spec alertId (alerts m)) as H. cbv zeta in H.
  destruct (acknowledgeFirst alertId (alerts m)) as [found l]. simpl in *.
  destruct H as (Hs & Hi & Hf & Hn).
  split; [|auto].
  rewrite !computedThreatLevel_levelOf. simpl. f_equal.
  apply levelOf_severities. exact Hs.
Qed.

Lemma insertByTime_Permutation a l : insertByTime a l ≡ₚ a :: l.
Proof.
  induction l as [|b l IH]; simpl; [reflexivity|].
  destruct (timestamp a <? timestamp b); [|reflexivity].
  rewrite IH. apply Permutation_swap.
Qed.

Lemma sortNewestFirst_Permutation l : sortNewestFirst l ≡ₚ l.
Proof.
  induction l as [|a l IH]; simpl; [reflexivity|].
  rewrite insertByTime_Permutation, IH. reflexivity.
Qed.

Lemma insertByTime_sorted a l :
  StronglySorted (λ x y, timestamp y ≤ timestamp x) l →
  StronglySorted (λ x y, timestamp y ≤ timestamp x) (insertByTime a l).
Proof.
  induction 1 as [|b l Hs IH Hb]; simpl.
  - repeat constructor.
  - destruct (Z.ltb_spec (timestamp a) (timestamp b)) as [Hlt|Hge].
    + constructor; [exact IH|].
      rewrite (insertByTime_Permutation a l). constructor; [lia | exact Hb].
    + constructor; [constructor; assumption|].
      constructor; [exact Hge|].
      eapply Forall_impl; [exact Hb|]. simpl. intros c Hc. lia.
Qed.

Lemma sortNewestFirst_sorted l :
  StronglySorted (λ x y, timestamp y ≤ timestamp x) (sortNewestFirst l).
Proof.
  induction l as [|a l IH]; simpl; [constructor | apply insertByTime_sorted; exact IH].
Qed.

(** X22: [getAlerts] sorts the monitor's own alert list: afterwards the
    stored list is a permutation of the old one ordered newest first, the
    returned list is its first [limit] entries (all of them when [limit]
    is at least the number of alerts), and the computed threat level is
    the same as before. *)
Theorem getAlerts_sorts_in_place m limit now stats :
  let r := getAlerts m limit in
  alerts r.2 ≡ₚ alerts m
  ∧ StronglySorted (λ x y, timestamp y ≤ timestamp x) (alerts r.2)
  ∧ (0 ≤ limit → r.1 = take (Z.to_nat limit) (alerts r.2))
  ∧ computedThreatLevel r.2 now stats = computedThreatLevel m now stats.
Proof.
  cbv zeta. unfold getAlerts; simpl.
  split; [apply sortNewestFirst_Permutation|].
  split; [apply sortNewestFirst_sorted|].
  split.
  - intros Hlim. unfold js_slice_to.
    replace (limit <? 0) with false by (symmetry; apply Z.ltb_ge; lia).
    destruct (Z.le_gt_cases limit (Z.of_nat (length (sortNewestFirst (alerts m)))))
      as [Hle|Hgt].
    + rewrite Z.min_l by lia. reflexivity.
    + rewrite Z.min_r by lia. rewrite Nat2Z.id.
      rewrite !take_ge by lia. reflexivity.
  - rewrite !computedThreatLevel_levelOf. simpl. f_equal.
    apply levelOf_Permutation, sortNewestFirst_Permutation.
Qed.

Lemma cleanup_spec m now :
  let l' := alerts (cleanup m now) in
  l' `sublist_of` alerts m
  ∧ (length l' ≤ 1000)%nat
  ∧ Forall (λ a, acknowledged a = false ∨ now - 86400000 < timestamp a) l'
  ∧ ((length (alerts m) ≤ 1000)%nat →
     l' = filter (λ a, acknowledged a = false ∨ now - 86400000 < timestamp a) (alerts m)).
Proof.
  cbv zeta. unfold cleanup; simpl.
  set (kept := filter _ (alerts m)).
  assert (Hsub : kept `sublist_of` alerts m) by apply sublist_filter.
  assert (Hall : Forall (λ a, acknowledged a = false ∨ now - 86400000 < timestamp a) kept).
  { apply Forall_forall. intros a Ha. apply list_elem_of_filter in Ha as [Ha _]. exact Ha. }
  destruct (Nat.ltb_spec 1000 (length kept)) as [Hover|Hfit].
  - split; [etrans; [apply sublist_drop | exact Hsub]|].
    split; [rewrite length_drop; lia|].
    split; [apply Forall_drop; exact Hall|].
    intros Hlen. apply sublist_length in Hsub. lia.
  - split; [exact Hsub|]. split; [exact Hfit|]. split; [exact Hall | reflexivity].
Qed.

(** X23: [cleanup] only removes alerts: what is left is a sublist of the
    old list, at most 1000 long, in which every alert is unacknowledged or
    younger than a day; when the list held at most 1000 alerts, exactly the
    acknowledged alerts older than a day are gone. *)
Theorem cleanup_bounds_and_keeps_order m now :
  let l' := alerts (cleanup m now) in
  l' `sublist_of` alerts m
  ∧ (length l' ≤ 1000)%nat
  ∧ Forall (λ a, acknowledged a = false ∨ now - 86400000 < timestamp a) l'
  ∧ ((length (alerts m) ≤ 1000)%nat →
     ∀ a, a ∈ l' ↔ a ∈ alerts m
                   ∧ (acknowledged a = false ∨ now - 86400000 < timestamp a)).
Proof.
  destruct (cleanup_spec m now) as (H1 & H2 & H3 & H4). cbv zeta.
  split; [exact H1|]. split; [exact H2|]. split; [exact H3|].
  intros Hlen a. rewrite (H4 Hlen), list_elem_of_filter. tauto.
Qed.

Lemma alertTick_keeps_critical m now a :
  a ∈ alerts m → severity a = Critical → acknowledged a = false →
  (length (alerts m) ≤ 1000)%nat →
  a ∈ alerts (alertTick m now) ∧ (length (alerts (alertTick m now)) ≤ 1000)%nat.
Proof.
  intros Hin Hsev Hack Hlen. unfold alertTick.
  destruct (cleanup_spec (processAlerts m now.1) now.2) as (_ & Hb & _ & Hfit).
  cbv zeta in *. split; [|exact Hb].
  assert (Hlen' : (length (alerts (processAlerts m now.1)) ≤ 1000)%nat)
    by (unfold processAlerts; simpl; rewrite length_fmap; exact Hlen).
  rewrite (Hfit Hlen'). apply list_elem_of_filter. split; [left; exact Hack|].
  unfold processAlerts; simpl. apply list_elem_of_fmap. exists a.
  split; [|exact Hin].
  rewrite Hack, Hsev. rewrite bool_decide_eq_false_2 by discriminate. reflexivity.
Qed.

(** X24: an unacknowledged critical alert outlives any number of
    [processAlerts(); cleanup()] rounds run on a list of at most 1000
    alerts, whatever the clock readings: neither the auto-acknowledgement
    nor the cleanup touches it, so the computed threat level stays
    critical. *)
Theorem unacknowledged_critical_alert_persists m (times : list (Z * Z)) a now stats :
  a ∈ alerts m →
  severity a = Critical →
  acknowledged a = false →
  (length (alerts m) ≤ 1000)%nat →
  a ∈ alerts (alertTicks m times)
  ∧ computedThreatLevel (alertTicks m times) now stats = Some Critical.
Proof.
  intros Hin Hsev Hack Hlen.
  assert (Hkeep : a ∈ alerts (alertTicks m times)).
  { revert m Hin Hlen. induction times as [|t times IH]; intros m Hin Hlen; simpl;
      [exact Hin|].
    destruct (alertTick_keeps_critical m t a Hin Hsev Hack Hlen) as [Hin' Hlen'].
    apply IH; assumption. }
  split; [exact Hkeep|].
  rewrite computedThreatLevel_levelOf. f_equal. unfold levelOf.
  replace (0 <? countSeverity Critical (alerts (alertTicks m times))) with true;
    [reflexivity|].
  symmetry. apply Z.ltb_lt. apply MonitorFacts.countSeverity_pos.
  exists a. split; assumption.
Qed.

End MonitorOpsFacts.


(** ** Closed instances: SecurityMonitor *)

Module MonitorOpsExamples.
Import Monitor MonitorOps MonitorOpsFacts.

(** [getAlerts] reorders the monitor's own list, and a limit of -1 drops
    the oldest alert instead of limiting to the newest. *)
Example getAlerts_sample :
  let m := sampleMonitor sampleAlerts in
  id <$> alerts (getAlerts m 2).2 = ["a2"; "a1"; "a3"]
  ∧ id <$> (getAlerts m 2).1 = ["a2"; "a1"]
  ∧ id <$> (getAlerts m (-1)).1 = ["a2"; "a1"].
Proof. vm_compute. repeat split. Qed.

(** An old low-severity alert is acknowledged by one round and removed by
    a round a day later. *)
Example low_alert_ages_out :
  let m := sampleMonitor [alertAt "a1" Low 10 false] in
  (acknowledged <$> alerts (alertTick m (3600011, 3600011))) = [true]
  ∧ alerts (alertTicks m [(3600011, 3600011); (86400010, 86400010)]) = [].
Proof. vm_compute. split; reflexivity. Qed.

(** [getAlerts_sorts_in_place] with the default limit. *)
Lemma getAlerts_sorts_in_place_witness :
  let m := sampleMonitor sampleAlerts in
  0 ≤ 50 ∧ (getAlerts m 50).1 = take (Z.to_nat 50) (alerts (getAlerts m 50).2).
Proof.
  cbv zeta. assert (H : 0 ≤ 50) by lia. split; [exact H|].
  exact (proj1 (proj2 (proj2 (getAlerts_sorts_in_place
                                (sampleMonitor sampleAlerts) 50 0 noStats))) H).
Defined.

(** [unacknowledged_critical_alert_persists] on the sample alerts, over
    two rounds a day apart. *)
Lemma unacknowledged_critical_alert_persists_witness :
  let m := sampleMonitor sampleAlerts in
  let a := alertAt "a2" Critical 20 false in
  let times := [(3600011, 3600012); (90000000, 90000001)] in
  a ∈ alerts m
  ∧ severity a = Critical
  ∧ acknowledged a = false
  ∧ (length (alerts m) ≤ 1000)%nat
  ∧ a ∈ alerts (alertTicks m times)
  ∧ computedThreatLevel (alertTicks m times) 90000002 noStats = Some Critical.
Proof.
  cbv zeta.
  assert (H1 : alertAt "a2" Critical 20 false ∈ alerts (sampleMonitor sampleAlerts))
    by (apply (list_elem_of_lookup_2 _ 1%nat); reflexivity).
  assert (H2 : severity (alertAt "a2" Critical 20 false) = Critical) by reflexivity.
  assert (H3 : acknowledged (alertAt "a2" Critical 20 false) = false) by reflexivity.
  assert (H4 : (length (alerts (sampleMonitor sampleAlerts)) ≤ 1000)%nat)
    by (simpl; lia).
  split; [exact H1|]. split; [exact H2|]. split; [exact H3|]. split; [exact H4|].
  exact (unacknowledged_critical_alert_persists
           (sampleMonitor sampleAlerts)
           [(3600011, 3600012); (90000000, 90000001)]
           (alertAt "a2" Critical 20 false) 90000002 noStats H1 H2 H3 H4).
Defined.

End MonitorOpsExamples.

(** * Further properties of SecurityEventLogger *)

Module EventLoggerOpsFacts.
Import EventLogger EventLoggerOps.

(** *** Token hashing *)

Lemma toInt32_range x : - 2 ^ 31 ≤ toInt32 x < 2 ^ 31.
Proof.
  unfold toInt32. pose proof (Z.mod_pos_bound (x + 2 ^ 31) (2 ^ 32) ltac:(lia)). lia.
Qed.

Lemma toInt32_small x : - 2 ^ 31 ≤ x < 2 ^ 31 → toInt32 x = x.
Proof. intros H. unfold toInt32. rewrite Z.mod_small by lia. lia. Qed.

Lemma toInt32_congr x y : (x - y) mod 2 ^ 32 = 0 → toInt32 x = toInt32 y.
Proof.
  intros H. unfold toInt32. f_equal.
  apply Z.mod_divide in H; [|lia]. destruct H as [k Hk].
  replace (x + 2 ^ 31) with (y + 2 ^ 31 + k * 2 ^ 32) by lia.
  apply Z.mod_add. lia.
Qed.

Lemma toInt32_diff x : (toInt32 x - x) mod 2 ^ 32 = 0.
Proof.
  unfold toInt32.
  pose proof (Z.div_mod (x + 2 ^ 31) (2 ^ 32) ltac:(lia)) as H.
  replace ((x + 2 ^ 31) mod 2 ^ 32 - 2 ^ 31 - x)
    with (- ((x + 2 ^ 31) / 2 ^ 32) * 2 ^ 32) by lia.
  apply Z.mod_mul. lia.
Qed.

Lemma hashStep_poly hash c :
  hashStep hash c = toInt32 (31 * hash + c).
Proof.
  unfold hashStep. rewrite Z.land_diag. apply toInt32_congr.
  rewrite Z.shiftl_mul_pow2 by lia.
  pose proof (toInt32_diff (toInt32 hash * 2 ^ 5)) as H1.
  pose proof (toInt32_diff hash) as H2.
  apply Z.mod_divide in H1; [|lia]. apply Z.mod_divide in H2; [|lia].
  destruct H1 as [k1 H1], H2 as [k2 H2].
  apply Z.mod_divide; [lia|]. exists (k1 + 32 * k2). lia.
Qed.

Lemma hashLoop_poly codes : ∀ h p,
  h = toInt32 p → hashLoop h codes = toInt32 (polyHash p codes).
Proof.
  unfold hashLoop, polyHash.
  induction codes as [|c rest IH]; intros h p Hh; simpl; [exact Hh|].
  apply IH. rewrite hashStep_poly. apply toInt32_congr.
  pose proof (toInt32_diff p) as H. subst h.
  apply Z.mod_divide in H; [|lia]. destruct H as [k H].
  apply Z.mod_divide; [lia|]. exists (31 * k). lia.
Qed.

(** X27: the number [hashToken] prints is the 32-bit two's complement
    reading of the polynomial [c0 * 31^(n-1) + ... + c(n-1)] over the
    token's code units, whatever the code units are; it always lies in the
    signed 32-bit range, so two tokens whose polynomials differ by a
    multiple of 2^32 get the same hash. *)
Theorem hashToken_is_wrapped_polynomial (codes codes' : list Z) :
  hashLoop 0 codes = toInt32 (polyHash 0 codes)
  ∧ - 2 ^ 31 ≤ hashLoop 0 codes < 2 ^ 31
  ∧ ((polyHash 0 codes - polyHash 0 codes') mod 2 ^ 32 = 0 →
     hashLoop 0 codes = hashLoop 0 codes').
Proof.
  assert (H : ∀ l, hashLoop 0 l = toInt32 (polyHash 0 l))
    by (intros l; apply hashLoop_poly; reflexivity).
  split; [apply H|]. split; [rewrite H; apply toInt32_range|].
  intros Hmod. rewrite !H. apply toInt32_congr. exact Hmod.
Qed.

(** *** Local storage *)

Lemma last_drop_snoc {A} (l : list A) (x : A) (n : nat) :
  (n ≤ length l)%nat → last (drop n (l ++ [x])) = Some x.
Proof.
  intros H. rewrite drop_app_le by exact H. apply last_snoc.
Qed.

Lemma storeLocally_stored (st : Logger) (batch : EventBatch) :
  let old := default [] (localStorage st !! localStorageKey (config st)) in
  ∃ stored,
    localStorage (storeLocally st batch) !! localStorageKey (config st) = Some stored
    ∧ last stored = Some batch
    ∧ (length stored ≤ 100)%nat
    ∧ stored `suffix_of` (old ++ [batch])
    ∧ ((length old < 100)%nat → stored = old ++ [batch]).
Proof.
  cbv zeta. unfold storeLocally; simpl.
  set (old := default [] (localStorage st !! localStorageKey (config st))).
  eexists. split; [apply lookup_insert_eq|].
  destruct (Nat.ltb_spec 100 (length (old ++ [batch]))) as [Hover|Hfit].
  - rewrite length_app in Hover |- *. simpl in *.
    split; [apply last_drop_snoc; lia|].
    split; [rewrite length_drop, length_app; simpl; lia|].
    split; [apply suffix_drop|]. lia.
  - split; [apply last_snoc|]. split; [exact Hfit|]. split; [reflexivity|].
    reflexivity.
Qed.

(** X25: [storeLocally] leaves under [localStorageKey] a list that ends
    with the new batch, holds at most 100 batches, and is the tail end of
    the old list followed by the new batch: the oldest batches go first.
    Nothing else of the logger changes. *)
Theorem storeLocally_keeps_last_hundred (st : Logger) (batch : EventBatch) :
  let old := default [] (localStorage st !! localStorageKey (config st)) in
  let st' := storeLocally st batch in
  (∃ stored,
     localStorage st' !! localStorageKey (config st) = Some stored
     ∧ last stored = Some batch
     ∧ (length stored ≤ 100)%nat
     ∧ stored `suffix_of` (old ++ [batch])
     ∧ ((length old < 100)%nat → stored = old ++ [batch]))
  ∧ (∀ key, key ≠ localStorageKey (config st) →
            localStorage st' !! key = localStorage st !! key)
  ∧ eventQueue st' = eventQueue st
  ∧ retryQueue st' = retryQueue st
  ∧ requests st' = requests st.
Proof.
  cbv zeta. split; [apply storeLocally_stored|].
  split; [|repeat split].
  intros key Hkey. unfold storeLocally; simpl.
  apply lookup_insert_ne. congruence.
Qed.

(** X26: a batch stored by [storeLocally] is resumed by the next logger
    constructed on the same page: it is the last batch of the new retry
    queue, the stored entry is removed from [localStorage], and one retry
    timer is armed. *)
Theorem stored_batch_is_resumed (st : Logger) (batch : EventBatch) (session fp : string) :
  let st' := newLogger (config st) session fp (localStorage (storeLocally st batch)) in
  last (retryQueue st') = Some batch
  ∧ localStorage st' !! localStorageKey (config st) = None
  ∧ retryTimers st' = 1%nat
  ∧ eventQueue st' = []
  ∧ consoleHooked st' = true.
Proof.
  cbv zeta.
  destruct (storeLocally_stored st batch) as (stored & Hst & Hlast & _).
  unfold newLogger, loadPendingEvents. cbn [config localStorage]. rewrite Hst.
  cbn [retryQueue app]. 
  destruct stored as [|b0 rest]; [discriminate|].
  simpl. split; [exact Hlast|]. split; [apply lookup_delete_eq|]. repeat split.
Qed.

(** X28: when a retry timer fires, the head of the retry queue is taken
    off and sent, the rest keeps its order; with an endpoint the batch goes
    out as a request and [localStorage] is untouched, without one it is
    appended to the stored batches. *)
Theorem retry_takes_head_of_queue (st : Logger) (batch : EventBatch)
    (rest : list EventBatch) :
  retryQueue st = batch :: rest →
  let r := retryFire st in
  r.1 = Some batch
  ∧ retryQueue r.2 = rest
  ∧ retryTimers r.2 = pred (retryTimers st)
  ∧ (hasEndpoint (config st) = true →
     requests r.2 = requests st ++ [batch] ∧ localStorage r.2 = localStorage st)
  ∧ (hasEndpoint (config st) = false →
     requests r.2 = requests st
     ∧ ∃ stored, localStorage r.2 !! localStorageKey (config st) = Some stored
                 ∧ last stored = Some batch).
Proof.
  intros Hq. cbv zeta. unfold retryFire. cbn [retryQueue set_retryTimers]. rewrite Hq.
  cbn [fst snd]. unfold sendBatch.
  change (config (set_retryQueue (set_retryTimers st (pred (retryTimers st))) rest))
    with (config st).
  split; [reflexivity|].
  destruct (hasEndpoint (config st)) eqn:Hep; cbn [negb].
  - split; [reflexivity|]. split; [reflexivity|]. split; [|discriminate].
    intros _. split; reflexivity.
  - split; [reflexivity|]. split; [reflexivity|]. split; [discriminate|].
    intros _. split; [reflexivity|].
    set (st0 := set_retryQueue _ rest).
    destruct (storeLocally_stored st0 batch) as (stored & Hst & Hlast & _).
    exists stored. split; assumption.
Qed.

Section Unload.

Variable random : nat → string.

(** X29: [flushBeforeUnload] empties the queue without losing an event,
    online or not: the queued events, in order, form one batch that is
    either handed to the beacon (endpoint configured and [sendBeacon]
    available) or stored locally as the last stored batch. *)
Theorem unload_flush_keeps_every_event (st : Logger) (now : Z) (hasBeacon : bool) :
  eventQueue st ≠ [] →
  let st' := flushBeforeUnload random st now hasBeacon in
  eventQueue st' = []
  ∧ ∃ batch,
      events batch = eventQueue st
      ∧ if hasEndpoint (config st) && hasBeacon
        then requests st' = requests st ++ [batch]
             ∧ localStorage st' = localStorage st
        else requests st' = requests st
             ∧ ∃ stored, localStorage st' !! localStorageKey (config st) = Some stored
                         ∧ last stored = Some batch.
Proof.
  intros Hne. cbv zeta. unfold flushBeforeUnload.
  rewrite bool_decide_eq_false_2 by exact Hne.
  set (batch := {| events := eventQueue st; batchId := _; batch_timestamp := now;
                   batch_sessionId := _ |}).
  cbn [config next_draw].
  split; [reflexivity|]. exists batch. split; [reflexivity|].
  destruct (hasEndpoint (config st) && hasBeacon).
  - split; reflexivity.
  - split; [reflexivity|].
    destruct (storeLocally_stored (next_draw st) batch)
      as (stored & Hst & Hlast & _).
    exists stored. split; assumption.
Qed.

End Unload.

End EventLoggerOpsFacts.

(** ** Closed instances: SecurityEventLogger *)

Module EventLoggerOpsExamples.
Import EventLogger EventLoggerOps EventLoggerOpsFacts.

Example hashToken_samples :
  hashToken "" = "0" ∧ hashToken "a" = "2p" ∧ hashToken "ab" = "2e9"
  ∧ polyHash 0 (charCodes "zzzzzzzz") = 3468423552256
  ∧ hashLoop 0 (charCodes "zzzzzzzz") = -1910022912
  ∧ hashToken "zzzzzzzz" = "-vl6f40".
Proof. vm_compute. repeat split. Qed.

(** [hashToken_is_wrapped_polynomial] on the tokens "Aa" and "BB", whose
    polynomials are both 2112. *)
Lemma hashToken_is_wrapped_polynomial_witness :
  (polyHash 0 (charCodes "Aa") - polyHash 0 (charCodes "BB")) mod 2 ^ 32 = 0
  ∧ hashLoop 0 (charCodes "Aa") = hashLoop 0 (charCodes "BB").
Proof.
  assert (H : (polyHash 0 (charCodes "Aa") - polyHash 0 (charCodes "BB")) mod 2 ^ 32 = 0)
    by (vm_compute; reflexivity).
  split; [exact H|].
  exact (proj2 (proj2 (hashToken_is_wrapped_polynomial
                         (charCodes "Aa") (charCodes "BB"))) H).
Defined.

(** [retry_takes_head_of_queue] on a logger resumed, without endpoint,
    from two stored batches. *)
Lemma retry_takes_head_of_queue_witness :
  let st := newLogger defaultConfig "s" "f"
              {[ "sandro_security_events" := [sampleBatch "b1"; sampleBatch "b2"] ]} in
  retryQueue st = sampleBatch "b1" :: [sampleBatch "b2"]
  ∧ let r := retryFire st in
    r.1 = Some (sampleBatch "b1")
    ∧ retryQueue r.2 = [sampleBatch "b2"]
    ∧ retryTimers r.2 = pred (retryTimers st)
    ∧ (hasEndpoint (config st) = true →
       requests r.2 = requests st ++ [sampleBatch "b1"]
       ∧ localStorage r.2 = localStorage st)
    ∧ (hasEndpoint (config st) = false →
       requests r.2 = requests st
       ∧ ∃ stored, localStorage r.2 !! localStorageKey (config st) = Some stored
                   ∧ last stored = Some (sampleBatch "b1")).
Proof.
  cbv zeta.
  assert (H : retryQueue (newLogger defaultConfig "s" "f"
                            {[ "sandro_security_events"
                               := [sampleBatch "b1"; sampleBatch "b2"] ]})
              = sampleBatch "b1" :: [sampleBatch "b2"])
    by (vm_compute; reflexivity).
  split; [exact H|].
  exact (retry_takes_head_of_queue _ (sampleBatch "b1") [sampleBatch "b2"] H).
Defined.

(** [unload_flush_keeps_every_event] on an offline logger with one
    queued event. *)
Lemma unload_flush_keeps_every_event_witness :
  let st := set_isOnline
              (enqueue sampleRandom "UA" (newLogger defaultConfig "s" "f" ∅) 3
                 "suspicious_activity" ∅ Medium "test") false in
  eventQueue st ≠ []
  ∧ let st' := flushBeforeUnload sampleRandom st 4 true in
    eventQueue st' = []
    ∧ ∃ batch,
        events batch = eventQueue st
        ∧ if hasEndpoint (config st) && true
          then requests st' = requests st ++ [batch]
               ∧ localStorage st' = localStorage st
          else requests st' = requests st
               ∧ ∃ stored, localStorage st' !! localStorageKey (config st) = Some stored
                           ∧ last stored = Some batch.
Proof.
  cbv zeta.
  assert (H : eventQueue
                (set_isOnline
                   (enqueue sampleRandom "UA" (newLogger defaultConfig "s" "f" ∅) 3
                      "suspicious_activity" ∅ Medium "test") false) ≠ [])
    by (vm_compute; discriminate).
  split; [exact H|].
  exact (unload_flush_keeps_every_event sampleRandom _ 4 true H).
Defined.

End EventLoggerOpsExamples.

